(** * Xget: routing, retry, cache-key and error-response behaviour

    A shallow embedding of the parts of the Xget edge proxy that decide its
    routing and orchestration behaviour:

    - [src/utils/security.js]    ([addSecurityHeaders], [createErrorResponse])
    - [src/config/index.js]      ([createConfig])
    - [src/config/platforms.js]  ([PLATFORMS], [SORTED_PLATFORMS], [transformPath])
    - [src/protocols/docker.js]  ([getScopeFromUrl], [responseUnauthorized], ...)
    - [src/index.js]             ([handleRequest]: platform detection, the
                                  retry loop, the response post-processing and
                                  the cache population)

    JavaScript strings are modelled by Rocq strings (sequences of 8-bit code
    units), JavaScript numbers by [Z] (every number the modelled code handles
    is an integer), a [Headers] object by a finite map keyed by the lower-cased
    header name, and the asynchronous, effectful handler by a state-and-
    exception monad over an explicit world (fetch log, timers, cache writes). *)

From Stdlib Require Import ZArith Lia Ascii String List Bool DecimalString DecimalPos.
From Stdlib Require Import Sorted Permutation.
From stdpp Require Import base option list gmap strings.

Local Open Scope Z_scope.

(** ** JavaScript string primitives *)

Module Js.

(** [s.startsWith(p)] *)
Definition startsWith (s p : string) : bool := String.prefix p s.

(** [s.slice(n)] for [0 <= n]. *)
Fixpoint slice (n : nat) (s : string) : string :=
  match n, s with
  | O, _ => s
  | S _, EmptyString => EmptyString
  | S n', String _ s' => slice n' s'
  end.

(** [s.includes(p)] *)
Fixpoint includes (s p : string) : bool :=
  String.prefix p s ||
  match s with
  | EmptyString => false
  | String _ s' => includes s' p
  end.

(** [s.replace(p, r)] with a string pattern: only the first occurrence is
    replaced ([r] holds no [$] pattern at any call site). *)
Fixpoint replace (p r s : string) : string :=
  if String.prefix p s then r +:+ slice (String.length p) s
  else match s with
       | EmptyString => EmptyString
       | String c s' => String c (replace p r s')
       end.

(** [s.replace(/c/g, d)] for a one-character pattern and replacement. *)
Fixpoint replaceAllChar (c d : ascii) (s : string) : string :=
  match s with
  | EmptyString => EmptyString
  | String a s' => String (if Ascii.eqb a c then d else a) (replaceAllChar c d s')
  end.

(** [s.replace(/^p/, r)] where [p] is a literal (fully escaped) pattern. *)
Definition replaceAtStart (p r s : string) : string :=
  if String.prefix p s then r +:+ slice (String.length p) s else s.

(** [s.split(c)] for a one-character separator; never the empty list. *)
Fixpoint split (c : ascii) (s : string) : list string :=
  match s with
  | EmptyString => [EmptyString]
  | String a s' =>
      if Ascii.eqb a c then EmptyString :: split c s'
      else match split c s' with
           | x :: l => String a x :: l
           | [] => [String a EmptyString]
           end
  end.

(** [parts.join(sep)] *)
Fixpoint join (sep : string) (l : list string) : string :=
  match l with
  | [] => EmptyString
  | [x] => x
  | x :: l' => x +:+ sep +:+ join sep l'
  end.

(** [arr.includes(x)] on an array of strings. *)
Definition arr_includes (l : list string) (x : string) : bool :=
  existsb (String.eqb x) l.

(** [arr.findIndex(p)]: [None] stands for [-1]. *)
Fixpoint findIndex {A} (p : A -> bool) (l : list A) : option nat :=
  match l with
  | [] => None
  | x :: l' => if p x then Some O else option_map S (findIndex p l')
  end.

(** [s.endsWith(p)] *)
Definition endsWith (s p : string) : bool :=
  (String.length p <=? String.length s)%nat &&
  String.eqb (slice (String.length s - String.length p) s) p.

(** ASCII part of [s.toLowerCase()]; header names are ASCII tokens. *)
Definition lower_ascii (a : ascii) : ascii :=
  let n := nat_of_ascii a in
  if ((65 <=? n) && (n <=? 90))%nat then ascii_of_nat (n + 32) else a.
Fixpoint toLowerCase (s : string) : string :=
  match s with
  | EmptyString => EmptyString
  | String a s' => String (lower_ascii a) (toLowerCase s')
  end.

(** Truthiness of a string, and of a possibly [null] string. *)
Definition truthy (s : string) : bool := negb (String.eqb s EmptyString).
Definition truthy_opt (o : option string) : bool :=
  match o with Some s => truthy s | None => false end.

(** [String(n)] for an integer [n]. *)
Definition string_of_Z (n : Z) : string := NilZero.string_of_int (Z.to_int n).

(** Thrown values: an [Error] object with its [name] and [message], or any
    other value, seen through [String(value)]. *)
Inductive Thrown : Type :=
| ErrorObj (name message : string)
| NonError (shown : string).

(** [error instanceof Error && error.name === 'AbortError'] *)
Definition isAbortError (e : Thrown) : bool :=
  match e with
  | ErrorObj n _ => String.eqb n "AbortError"
  | NonError _ => false
  end.

(** [error instanceof Error ? error.message : String(error)] *)
Definition errorMessage (e : Thrown) : string :=
  match e with
  | ErrorObj _ m => m
  | NonError s => s
  end.

(** The outcome of an expression that may throw (of a promise that may
    reject). *)
Inductive result (A : Type) : Type :=
| Ok (a : A)
| Throw (e : Thrown).
Arguments Ok {A} a.
Arguments Throw {A} e.

End Js.

Export Js (Thrown(..), result(..)).

(** ** JSON.stringify on strings *)

Module Json.

Definition hex_digit (n : nat) : ascii :=
  ascii_of_nat (if (n <? 10)%nat then 48 + n else 87 + n).

Definition dquote : ascii := ascii_of_nat 34.
Definition backslash : ascii := ascii_of_nat 92.
Definition esc (c : string) : string := String backslash c.

(** The escape of one code unit inside a JSON string literal. *)
Definition escape_char (a : ascii) : string :=
  let n := nat_of_ascii a in
  if (n =? 34)%nat then esc (String dquote EmptyString)
  else if (n =? 92)%nat then esc (String backslash EmptyString)
  else if (n =? 8)%nat then esc "b"
  else if (n =? 12)%nat then esc "f"
  else if (n =? 10)%nat then esc "n"
  else if (n =? 13)%nat then esc "r"
  else if (n =? 9)%nat then esc "t"
  else if (n <? 32)%nat then
    esc "u00" +:+ String (hex_digit (n / 16)) (String (hex_digit (n mod 16)) EmptyString)
  else String a EmptyString.

Fixpoint escape (s : string) : string :=
  match s with
  | EmptyString => EmptyString
  | String a s' => escape_char a +:+ escape s'
  end.

(** [JSON.stringify(s)] for a string [s]. *)
Definition quote (s : string) : string :=
  String dquote (escape s +:+ String dquote EmptyString).

End Json.

(** ** Headers and responses (the Fetch API objects the code handles) *)

(** A [Headers] object: header names are case-insensitive, so the map is keyed
    by the lower-cased name; [get] of a header that occurs several times yields
    the combined value, which is what the map stores. *)
Abbreviation Headers := (gmap string string).

Module Hdr.

Definition get (h : Headers) (name : string) : option string :=
  h !! Js.toLowerCase name.

Definition has (h : Headers) (name : string) : bool :=
  match get h name with Some _ => true | None => false end.

Definition set (name value : string) (h : Headers) : Headers :=
  <[Js.toLowerCase name := value]> h.

Definition delete (name : string) (h : Headers) : Headers :=
  base.delete (Js.toLowerCase name) h.

(** [new Headers([...h.entries()].filter(([k]) => k.toLowerCase() !== name))] *)
Definition without (name : string) (h : Headers) : Headers :=
  filter (fun kv => Js.toLowerCase kv.1 <> name) h.

End Hdr.

(** A [Response]: status, headers and body ([None] is the [null] body). *)
Record Response : Type := mkResponse {
  status : Z;
  headers : Headers;
  body : option string
}.

(** [response.ok] *)
Definition ok (r : Response) : bool := (200 <=? status r) && (status r <=? 299).

(** [await response.text()] (the empty string for a [null] body). *)
Definition text (r : Response) : string := default EmptyString (body r).

(** A null body status of the Fetch standard. *)
Definition nullBodyStatus (s : Z) : bool :=
  (s =? 101) || (s =? 103) || (s =? 204) || (s =? 205) || (s =? 304).

(** What a [Response] is constructed from: [null], a string, or a stream
    (a body passed on from another response, or a [ReadableStream]). *)
Inductive BodyInit : Type :=
| NullBody
| StringBody (s : string)
| StreamBody (s : string).

Definition bodyOf (b : BodyInit) : option string :=
  match b with
  | NullBody => None
  | StringBody s | StreamBody s => Some s
  end.

(** [response.body], handed to another [Response]. *)
Definition passBody (r : Response) : BodyInit :=
  match body r with
  | None => NullBody
  | Some s => StreamBody s
  end.

(** [new Response(body, { status, headers })]: the constructor throws a
    [RangeError] for a status outside 200..599 and a [TypeError] for a body
    given together with a null body status; a string body brings its own
    content type when the headers name none. *)
Definition newResponse (b : BodyInit) (s : Z) (h : Headers) : result Response :=
  if negb ((200 <=? s) && (s <=? 599)) then
    Throw (ErrorObj "RangeError" "The status provided is outside the range [200, 599].")
  else if nullBodyStatus s && (match b with NullBody => false | _ => true end) then
    Throw (ErrorObj "TypeError" "Response with null body status cannot have body")
  else
    let h :=
      match b with
      | StringBody _ =>
          if Hdr.has h "Content-Type" then h
          else Hdr.set "Content-Type" "text/plain;charset=UTF-8" h
      | _ => h
      end in
    Ok (mkResponse s h (bodyOf b)).

(** ** src/utils/security.js *)

Definition addSecurityHeaders (h : Headers) : Headers :=
  let h := Hdr.set "Strict-Transport-Security" "max-age=31536000; includeSubDomains; preload" h in
  let h := Hdr.set "X-Frame-Options" "DENY" h in
  let h := Hdr.set "X-XSS-Protection" "1; mode=block" h in
  let h := Hdr.set "Referrer-Policy" "strict-origin-when-cross-origin" h in
  let h := Hdr.set "Content-Security-Policy"
             "default-src 'none'; img-src 'self'; script-src 'none'" h in
  let h := Hdr.set "Permissions-Policy" "interest-cohort=()" h in
  h.

(** [JSON.stringify({ error: message, status, timestamp })]; [timestamp] is
    the reading [new Date().toISOString()] of the clock. *)
Definition errorJson (timestamp message : string) (s : Z) : string :=
  let q := String Json.dquote EmptyString in
  "{" +:+ q +:+ "error" +:+ q +:+ ":" +:+ Json.quote message +:+
  "," +:+ q +:+ "status" +:+ q +:+ ":" +:+ Js.string_of_Z s +:+
  "," +:+ q +:+ "timestamp" +:+ q +:+ ":" +:+ Json.quote timestamp +:+ "}".

Definition createErrorResponse (timestamp : string)
    (message : string) (s : Z) (includeDetails : bool) : result Response :=
  let errorBody := if includeDetails then errorJson timestamp message s else message in
  newResponse (StringBody errorBody) s
    (addSecurityHeaders
       (Hdr.set "Content-Type"
          (if includeDetails then "application/json" else "text/plain") ∅)).

(** ** src/config/platforms.js *)

(** The [PLATFORMS] object literal, in source (key enumeration) order. *)
Definition PLATFORMS : list (string * string) :=
  [ ("gh", "https://github.com");
    ("gist", "https://gist.github.com");
    ("gl", "https://gitlab.com");
    ("gitea", "https://gitea.com");
    ("codeberg", "https://codeberg.org");
    ("sf", "https://sourceforge.net");
    ("aosp", "https://android.googlesource.com");
    ("hf", "https://huggingface.co");
    ("civitai", "https://civitai.com");
    ("npm", "https://registry.npmjs.org");
    ("pypi", "https://pypi.org");
    ("pypi-files", "https://files.pythonhosted.org");
    ("conda", "https://repo.anaconda.com");
    ("conda-community", "https://conda.anaconda.org");
    ("maven", "https://repo1.maven.org");
    ("apache", "https://downloads.apache.org");
    ("gradle", "https://plugins.gradle.org");
    ("homebrew", "https://github.com/Homebrew");
    ("homebrew-api", "https://formulae.brew.sh/api");
    ("homebrew-bottles", "https://ghcr.io");
    ("rubygems", "https://rubygems.org");
    ("cran", "https://cran.r-project.org");
    ("cpan", "https://www.cpan.org");
    ("ctan", "https://tug.ctan.org");
    ("golang", "https://proxy.golang.org");
    ("nuget", "https://api.nuget.org");
    ("crates", "https://crates.io");
    ("packagist", "https://repo.packagist.org");
    ("debian", "https://deb.debian.org");
    ("ubuntu", "https://archive.ubuntu.com");
    ("fedora", "https://dl.fedoraproject.org");
    ("rocky", "https://download.rockylinux.org");
    ("opensuse", "https://download.opensuse.org");
    ("arch", "https://geo.mirror.pkgbuild.com");
    ("arxiv", "https://arxiv.org");
    ("fdroid", "https://f-droid.org");
    ("jenkins", "https://updates.jenkins.io");
    ("ip-openai", "https://api.openai.com");
    ("ip-anthropic", "https://api.anthropic.com");
    ("ip-gemini", "https://generativelanguage.googleapis.com");
    ("ip-vertexai", "https://aiplatform.googleapis.com");
    ("ip-cohere", "https://api.cohere.ai");
    ("ip-mistralai", "https://api.mistral.ai");
    ("ip-xai", "https://api.x.ai");
    ("ip-githubmodels", "https://models.github.ai");
    ("ip-nvidiaapi", "https://integrate.api.nvidia.com");
    ("ip-perplexity", "https://api.perplexity.ai");
    ("ip-braintrust", "https://api.braintrust.dev");
    ("ip-groq", "https://api.groq.com");
    ("ip-cerebras", "https://api.cerebras.ai");
    ("ip-sambanova", "https://api.sambanova.ai");
    ("ip-siray", "https://api.siray.ai");
    ("ip-huggingface", "https://router.huggingface.co");
    ("ip-together", "https://api.together.xyz");
    ("ip-replicate", "https://api.replicate.com");
    ("ip-fireworks", "https://api.fireworks.ai");
    ("ip-nebius", "https://api.studio.nebius.ai");
    ("ip-jina", "https://api.jina.ai");
    ("ip-voyageai", "https://api.voyageai.com");
    ("ip-falai", "https://fal.run");
    ("ip-novita", "https://api.novita.ai");
    ("ip-burncloud", "https://ai.burncloud.com");
    ("ip-openrouter", "https://openrouter.ai");
    ("ip-poe", "https://api.poe.com");
    ("ip-featherlessai", "https://api.featherless.ai");
    ("ip-hyperbolic", "https://api.hyperbolic.xyz");
    ("cr-docker", "https://registry-1.docker.io");
    ("cr-quay", "https://quay.io");
    ("cr-gcr", "https://gcr.io");
    ("cr-mcr", "https://mcr.microsoft.com");
    ("cr-ecr", "https://public.ecr.aws");
    ("cr-ghcr", "https://ghcr.io");
    ("cr-gitlab", "https://registry.gitlab.com");
    ("cr-redhat", "https://registry.redhat.io");
    ("cr-oracle", "https://container-registry.oracle.com");
    ("cr-cloudsmith", "https://docker.cloudsmith.io");
    ("cr-digitalocean", "https://registry.digitalocean.com");
    ("cr-vmware", "https://projects.registry.vmware.com");
    ("cr-k8s", "https://registry.k8s.io");
    ("cr-heroku", "https://registry.heroku.com");
    ("cr-suse", "https://registry.suse.com");
    ("cr-opensuse", "https://registry.opensuse.org");
    ("cr-gitpod", "https://registry.gitpod.io") ].

(** [Object.keys(PLATFORMS)] *)
Definition PLATFORM_KEYS : list string := map fst PLATFORMS.

(** The own property [PLATFORMS[key]], when there is one. *)
Fixpoint assoc (key : string) (l : list (string * string)) : option string :=
  match l with
  | [] => None
  | (k, v) :: l' => if String.eqb k key then Some v else assoc key l'
  end.

(** [PLATFORMS] is a plain object literal, so [PLATFORMS[key]] also finds
    the members it inherits from [Object.prototype], all of them truthy. *)
Definition objectPrototypeKeys : list string :=
  [ "constructor"; "hasOwnProperty"; "isPrototypeOf"; "propertyIsEnumerable";
    "toLocaleString"; "toString"; "valueOf"; "__proto__";
    "__defineGetter__"; "__defineSetter__"; "__lookupGetter__"; "__lookupSetter__" ].

(** What such an inherited member reads as inside a template literal. *)
Definition inheritedText (key : string) : string :=
  if String.eqb key "__proto__" then "[object Object]"
  else if String.eqb key "constructor" then "function Object() { [native code] }"
  else "function " +:+ key +:+ "() { [native code] }".

(** [table[key]] for a plain object holding the entries [table]; [None] is
    [undefined]. *)
Definition tableGet (table : list (string * string)) (key : string) : option string :=
  match assoc key table with
  | Some v => Some v
  | None =>
      if Js.arr_includes objectPrototypeKeys key then Some (inheritedText key) else None
  end.

(** A stable sort by the comparator [cmp] (negative: first argument first), as
    [Array.prototype.sort] is: elements that compare equal keep their order. *)
Fixpoint sort_insert {A} (cmp : A -> A -> Z) (x : A) (l : list A) : list A :=
  match l with
  | [] => [x]
  | y :: l' => if cmp x y <=? 0 then x :: y :: l' else y :: sort_insert cmp x l'
  end.
Definition Array_sort {A} (cmp : A -> A -> Z) (l : list A) : list A :=
  foldr (sort_insert cmp) [] l.

(** The path a key is matched with when the platform is detected:
    [`/${key.replace('-', '/')}/`] (a string pattern: the first hyphen only). *)
Definition detectPrefix (key : string) : string :=
  "/" +:+ Js.replace "-" "/" key +:+ "/".

Definition SORTED_PLATFORMS : list string :=
  Array_sort
    (fun a b =>
       let pathA := detectPrefix a in
       let pathB := detectPrefix b in
       Z.of_nat (String.length pathB) - Z.of_nat (String.length pathA))
    PLATFORM_KEYS.

(** The prefix [transformPath] strips:
    [`/${platformKey.replace(/-/g, '/')}/`] (every hyphen). *)
Definition platformPrefix (platformKey : string) : string :=
  "/" +:+ Js.replaceAllChar "-" "/" platformKey +:+ "/".

Definition transformPath (path platformKey : string) : string :=
  if negb (Js.truthy_opt (tableGet PLATFORMS platformKey)) then path
  else
    let prefix := platformPrefix platformKey in
    let transformedPath := Js.replaceAtStart prefix "/" path in
    (* crates.io *)
    let transformedPath :=
      if String.eqb platformKey "crates" then
        if Js.startsWith transformedPath "/" then
          if String.eqb transformedPath "/" || Js.startsWith transformedPath "/?" then
            Js.replace "/" "/api/v1/crates" transformedPath
          else "/api/v1/crates" +:+ transformedPath
        else transformedPath
      else transformedPath in
    if String.eqb platformKey "homebrew-api" && Js.startsWith transformedPath "/" then
      transformedPath
    else if String.eqb platformKey "homebrew-bottles" && Js.startsWith transformedPath "/" then
      transformedPath
    else if String.eqb platformKey "jenkins" && Js.startsWith transformedPath "/" then
      if String.eqb transformedPath "/update-center.json" then
        "/current/update-center.json"
      else if String.eqb transformedPath "/update-center.actual.json" then
        "/current/update-center.actual.json"
      else if Js.startsWith transformedPath "/experimental/" ||
              Js.startsWith transformedPath "/download/" ||
              Js.startsWith transformedPath "/current/" then
        transformedPath
      else "/current" +:+ transformedPath
    else if String.eqb platformKey "homebrew" && Js.startsWith transformedPath "/" then
      transformedPath
    else transformedPath.

(** ** src/config/index.js *)

(** White space skipped by [parseInt] (code units below 256). *)
Definition isStrWhiteSpace (a : ascii) : bool :=
  let n := nat_of_ascii a in
  ((9 <=? n) && (n <=? 13) || (n =? 32) || (n =? 160))%nat.

Fixpoint trimStart (s : string) : string :=
  match s with
  | String a s' => if isStrWhiteSpace a then trimStart s' else s
  | EmptyString => EmptyString
  end.

Definition digitValue (a : ascii) : option Z :=
  let n := nat_of_ascii a in
  if ((48 <=? n) && (n <=? 57))%nat then Some (Z.of_nat (n - 48)) else None.

(** The value of the longest prefix of decimal digits, [None] when it is empty. *)
Fixpoint parseDigits (acc : option Z) (s : string) : option Z :=
  match s with
  | EmptyString => acc
  | String a s' =>
      match digitValue a with
      | Some d => parseDigits (Some (10 * default 0 acc + d)) s'
      | None => acc
      end
  end.

(** The Number value of a natural number below 2^1024: the nearest double,
    ties to even (exact up to 2^53). *)
Definition toDouble (z : Z) : Z :=
  let bits := Z.log2 z + 1 in
  if bits <=? 53 then z
  else
    let sh := bits - 53 in
    let q := Z.shiftr z sh in
    let r := Z.land z (Z.ones sh) in
    let half := Z.shiftl 1 (sh - 1) in
    let q' := if (half <? r) || ((r =? half) && Z.odd q) then q + 1 else q in
    Z.shiftl q' sh.

(** [parseInt(s, 10)]; [None] is [NaN]. A result at or above 2^1024 would be
    an infinity, which the model leaves out. *)
Definition parseInt10 (s : string) : option Z :=
  let s := trimStart s in
  let '(sign, s) :=
    match s with
    | String "-" s' => (-1, s')
    | String "+" s' => (1, s')
    | _ => (1, s)
    end in
  match parseDigits None s with
  | None => None
  | Some v => Some (sign * toDouble v)
  end.

(** [String(env.NAME)] for an environment of string-valued bindings. *)
Definition envString (env : gmap string string) (name : string) : string :=
  default "undefined" (env !! name).

(** [parseInt(String(env.NAME), 10) || fallback]: [NaN] and zero are falsy. *)
Definition intSetting (env : gmap string string) (name : string) (fallback : Z) : Z :=
  match parseInt10 (envString env name) with
  | Some v => if v =? 0 then fallback else v
  | None => fallback
  end.

(** [typeof env.NAME === 'string' ? env.NAME.split(',') : fallback] *)
Definition listSetting (env : gmap string string) (name : string)
    (fallback : list string) : list string :=
  match env !! name with
  | Some v => Js.split "," v
  | None => fallback
  end.

Record SecurityConfig : Type := mkSecurityConfig {
  ALLOWED_METHODS : list string;
  ALLOWED_ORIGINS : list string;
  MAX_PATH_LENGTH : Z
}.

Record ApplicationConfig : Type := mkApplicationConfig {
  TIMEOUT_SECONDS : Z;
  MAX_RETRIES : Z;
  RETRY_DELAY_MS : Z;
  CACHE_DURATION : Z;
  SECURITY : SecurityConfig;
  CONFIG_PLATFORMS : list (string * string)
}.

Definition createConfig (env : gmap string string) : ApplicationConfig :=
  {| TIMEOUT_SECONDS := intSetting env "TIMEOUT_SECONDS" 30;
     MAX_RETRIES := intSetting env "MAX_RETRIES" 3;
     RETRY_DELAY_MS := intSetting env "RETRY_DELAY_MS" 1000;
     CACHE_DURATION := intSetting env "CACHE_DURATION" 1800;
     SECURITY :=
       {| ALLOWED_METHODS := listSetting env "ALLOWED_METHODS" ["GET"; "HEAD"];
          ALLOWED_ORIGINS := listSetting env "ALLOWED_ORIGINS" ["*"];
          MAX_PATH_LENGTH := intSetting env "MAX_PATH_LENGTH" 2048 |};
     CONFIG_PLATFORMS := PLATFORMS |}.

(** [export const CONFIG = createConfig();] *)
Definition CONFIG : ApplicationConfig := createConfig ∅.

(** The five numeric settings, each with the environment variable it is read
    from, its default and the field that holds it. *)
Inductive NumericSetting : Type :=
| TimeoutSeconds | MaxRetries | RetryDelayMs | CacheDuration | MaxPathLength.

Definition settingName (k : NumericSetting) : string :=
  match k with
  | TimeoutSeconds => "TIMEOUT_SECONDS"
  | MaxRetries => "MAX_RETRIES"
  | RetryDelayMs => "RETRY_DELAY_MS"
  | CacheDuration => "CACHE_DURATION"
  | MaxPathLength => "MAX_PATH_LENGTH"
  end.

Definition settingDefault (k : NumericSetting) : Z :=
  match k with
  | TimeoutSeconds => 30
  | MaxRetries => 3
  | RetryDelayMs => 1000
  | CacheDuration => 1800
  | MaxPathLength => 2048
  end.

Definition settingValue (k : NumericSetting) (c : ApplicationConfig) : Z :=
  match k with
  | TimeoutSeconds => TIMEOUT_SECONDS c
  | MaxRetries => MAX_RETRIES c
  | RetryDelayMs => RETRY_DELAY_MS c
  | CacheDuration => CACHE_DURATION c
  | MaxPathLength => MAX_PATH_LENGTH (SECURITY c)
  end.

(** ** src/protocols/docker.js *)

(** The capture of the first match of the pattern: the literal [lit] (a field
    name, the equals sign and the opening quote), then one or more characters
    other than a quote, captured, then the closing quote. *)
Fixpoint untilQuote (s : string) : option string :=
  match s with
  | EmptyString => None
  | String a s' =>
      if Ascii.eqb a Json.dquote then Some EmptyString
      else option_map (String a) (untilQuote s')
  end.

Fixpoint matchQuoted (lit : string) (s : string) : option string :=
  let here :=
    if String.prefix lit s then
      match untilQuote (Js.slice (String.length lit) s) with
      | Some c => if Js.truthy c then Some c else None
      | None => None
      end
    else None in
  match here with
  | Some c => Some c
  | None =>
      match s with
      | EmptyString => None
      | String _ s' => matchQuoted lit s'
      end
  end.

Record WwwAuthenticate : Type := mkWwwAuthenticate {
  realm : string;
  service : string
}.

Definition parseAuthenticate (authenticateStr : string) : result WwwAuthenticate :=
  let realmMatch := matchQuoted ("realm=" +:+ String Json.dquote EmptyString) authenticateStr in
  let serviceMatch := matchQuoted ("service=" +:+ String Json.dquote EmptyString) authenticateStr in
  match realmMatch, serviceMatch with
  | Some r, Some s => Ok (mkWwwAuthenticate r s)
  | _, _ => Throw (ErrorObj "Error" ("invalid Www-Authenticate Header: " +:+ authenticateStr))
  end.

Definition getScopeFromUrl (pathname effectivePath platform : string) : string :=
  let pathParts := Js.split "/" pathname in
  if Js.arr_includes pathParts "_catalog" then "registry:catalog:*"
  else if (4 <=? length pathParts)%nat && String.eqb (nth 1 pathParts EmptyString) "v2" then
    let platformPrefix := platformPrefix platform in
    if Js.startsWith effectivePath platformPrefix then
      let repoPathFull := Js.slice (String.length platformPrefix) effectivePath in
      let repoParts := Js.split "/" repoPathFull in
      if (1 <=? length repoParts)%nat then
        let suffixIndex :=
          Js.findIndex
            (fun p => Js.arr_includes ["manifests"; "blobs"; "tags"; "referrers"] p)
            repoParts in
        let repoName :=
          match suffixIndex with
          | Some i => Js.join "/" (take i repoParts)
          | None => Js.join "/" repoParts
          end in
        let repoName :=
          if String.eqb platform "cr-docker" && Js.truthy repoName &&
             negb (Js.includes repoName "/")
          then "library/" +:+ repoName
          else repoName in
        if Js.truthy repoName then "repository:" +:+ repoName +:+ ":pull"
        else EmptyString
      else EmptyString
    else EmptyString
  else EmptyString.

(** The body of [responseUnauthorized]:
    [JSON.stringify({ errors: [{ code, message, detail: null }] })]. *)
Definition unauthorizedJson : string :=
  let q s := String Json.dquote (s +:+ String Json.dquote EmptyString) in
  "{" +:+ q "errors" +:+ ":[{" +:+ q "code" +:+ ":" +:+ q "UNAUTHORIZED" +:+ "," +:+
  q "message" +:+ ":" +:+ q "authentication required" +:+ "," +:+
  q "detail" +:+ ":null}]}".

Definition responseUnauthorized (hostname : string) : result Response :=
  let headers :=
    Hdr.set "WWW-Authenticate"
      ("Bearer realm=" +:+ String Json.dquote EmptyString +:+ "https://" +:+ hostname +:+
       "/v2/auth" +:+ String Json.dquote EmptyString +:+ ",service=" +:+
       String Json.dquote EmptyString +:+ "Xget" +:+ String Json.dquote EmptyString)
      ∅ in
  newResponse (StringBody unauthorizedJson) 401 headers.

(** ** The world of one request *)

Inductive RedirectMode : Type := follow | manual.

(** The options of a [fetch] call. *)
Record RequestInit : Type := mkRequestInit {
  init_method : string;
  init_headers : Headers;
  init_redirect : RedirectMode;
  init_body : bool;          (* [body: request.body] is passed on *)
  init_cf : option Z;        (* the [cf] block of a plain download, by its [cacheTtl] *)
  init_signal : bool         (* [signal: controller.signal] is attached *)
}.

(** The resource a [fetch] is addressed to: a URL string, or a [URL] object
    made from a base on which search parameters were set. *)
Inductive Target : Type :=
| Href (url : string)
| WithParams (base : string) (params : list (string * string)).

(** [new Request(url, { method, headers })], used as a cache key. *)
Record CacheKey : Type := mkCacheKey {
  key_url : string;
  key_method : string;
  key_headers : Headers
}.

(** What the handler does to the outside, oldest event first. *)
Inductive Event : Type :=
| EvMark (name : string)                     (* [monitor.mark(name)] *)
| EvFetch (target : Target) (init : RequestInit)
| EvAbortTimer (ms : Z)                      (* [setTimeout(() => controller.abort(), ms)] *)
| EvClearTimeout
| EvSleep (ms : Z)                           (* [await new Promise(r => setTimeout(r, ms))] *)
| EvCacheMatch (key : CacheKey)
| EvCachePut (key : CacheKey) (r : Response) (waitUntil : bool).

Definition isFetch (e : Event) : bool :=
  match e with EvFetch _ _ => true | _ => false end.
Definition isCacheOp (e : Event) : bool :=
  match e with EvCacheMatch _ | EvCachePut _ _ _ => true | _ => false end.

(** How many events of a trace pass a test. *)
Fixpoint count (p : Event -> bool) (tr : list Event) : nat :=
  match tr with
  | [] => O
  | e :: tr' => ((if p e then 1 else 0) + count p tr')%nat
  end.

(** What the outside does in answer: the runtime and the network. *)
Record Runtime : Type := mkRuntime {
  (* the outcome of the n-th [fetch] of the request *)
  fetch_result : nat -> Target -> RequestInit -> result Response;
  (* the outcome of [cache.match] as the n-th cache operation *)
  cache_match_result : nat -> CacheKey -> result (option Response);
  (* the n-th reading of the clock, in milliseconds *)
  date_now : nat -> Z;
  toISOString : Z -> string;
  (* whether [new URL(s)] accepts [s] *)
  url_ok : string -> bool;
  (* [(await response.json()).token] of a body text, as a string *)
  json_token : string -> result (option string)
}.

(** The mutable variables of [handleRequest] and the events so far. *)
Record State : Type := mkState {
  response : option Response;       (* [let response] *)
  attempts : Z;                     (* [let attempts] *)
  startTime : Z;                    (* [monitor.startTime] *)
  marks : list (string * Z);        (* [monitor.marks] *)
  clock : nat;                      (* clock readings so far *)
  trace : list Event
}.

Definition initialState : State := mkState None 0 0 [] 0 [].

(** Computations that read and write the state and may throw. *)
Definition M (A : Type) : Type := State -> result A * State.

Definition ret {A} (a : A) : M A := fun s => (Ok a, s).
Definition throw {A} (e : Thrown) : M A := fun s => (Throw e, s).
Definition bind {A B} (m : M A) (k : A -> M B) : M B :=
  fun s => match m s with
           | (Ok a, s') => k a s'
           | (Throw e, s') => (Throw e, s')
           end.
Definition tryCatch {A} (m : M A) (handler : Thrown -> M A) : M A :=
  fun s => match m s with
           | (Ok a, s') => (Ok a, s')
           | (Throw e, s') => handler e s'
           end.
Definition lift {A} (r : result A) : M A := fun s => (r, s).

Notation "x <- m ;; k" := (bind m (fun x => k))
  (at level 100, m at next level, right associativity).
Notation "m ;;; k" := (bind m (fun _ => k))
  (at level 100, right associativity).

Definition getResponse : M (option Response) := fun s => (Ok (response s), s).
Definition setResponse (r : Response) : M unit :=
  fun s => (Ok tt, mkState (Some r) (attempts s) (startTime s) (marks s) (clock s) (trace s)).
Definition getAttempts : M Z := fun s => (Ok (attempts s), s).
Definition setAttempts (n : Z) : M unit :=
  fun s => (Ok tt, mkState (response s) n (startTime s) (marks s) (clock s) (trace s)).
Definition emit (e : Event) : M unit :=
  fun s => (Ok tt, mkState (response s) (attempts s) (startTime s) (marks s) (clock s)
                     (trace s ++ [e])).

(** [Map.prototype.set]: an existing key keeps its place. *)
Fixpoint mapSet (name : string) (v : Z) (m : list (string * Z)) : list (string * Z) :=
  match m with
  | [] => [(name, v)]
  | (k, w) :: m' => if String.eqb k name then (k, v) :: m' else (k, w) :: mapSet name v m'
  end.

Section Handler.

Context (rt : Runtime).

(** [Date.now()] *)
Definition dateNow : M Z :=
  fun s => (Ok (date_now rt (clock s)),
            mkState (response s) (attempts s) (startTime s) (marks s) (S (clock s)) (trace s)).

(** [new PerformanceMonitor()] *)
Definition newMonitor : M unit :=
  t <- dateNow ;;
  fun s => (Ok tt, mkState (response s) (attempts s) t [] (clock s) (trace s)).

(** [monitor.mark(name)] *)
Definition mark (name : string) : M unit :=
  t <- dateNow ;;
  (fun s => (Ok tt, mkState (response s) (attempts s) (startTime s)
                      (mapSet name (t - startTime s) (marks s)) (clock s) (trace s))) ;;;
  emit (EvMark name).

(** [await fetch(target, init)] *)
Definition fetch (target : Target) (init : RequestInit) : M Response :=
  n <- (fun s => (Ok (count isFetch (trace s)), s)) ;;
  emit (EvFetch target init) ;;;
  lift (fetch_result rt n target init).

(** [await cache.match(key)] *)
Definition cacheMatch (key : CacheKey) : M (option Response) :=
  n <- (fun s => (Ok (count isCacheOp (trace s)), s)) ;;
  emit (EvCacheMatch key) ;;;
  lift (cache_match_result rt n key).

(** [await new Promise(resolve => setTimeout(resolve, ms))] *)
Definition sleep (ms : Z) : M unit := emit (EvSleep ms).

(** [createErrorResponse] with the clock read where the source reads it. *)
Definition errorResponse (message : string) (s : Z) (includeDetails : bool) : M Response :=
  if includeDetails then
    t <- dateNow ;;
    lift (createErrorResponse (toISOString rt t) message s true)
  else lift (createErrorResponse EmptyString message s false).

End Handler.

(** ** The request as the handler sees it *)

(** The parts of [new URL(request.url)] the handler reads; [scopeParam] is
    [url.searchParams.get('scope')]. *)
Record URL : Type := mkURL {
  pathname : string;
  search : string;
  origin : string;
  hostname : string;
  scopeParam : option string
}.

Record Request : Type := mkRequest {
  method : string;
  req_headers : Headers
}.

(** The verdicts of the protocol classifiers on the request
    ([isDockerRequest], [isGitRequest], [isGitLFSRequest],
    [isAIInferenceRequest], [isHuggingFaceAPIRequest]). *)
Record Classification : Type := mkClassification {
  isDocker : bool;
  isGit : bool;
  isGitLFS : bool;
  isAI : bool;
  isHF : bool
}.

(** [isGit || isGitLFS || isDocker || isAI || isHF] *)
Definition isProtocol (c : Classification) : bool :=
  isGit c || isGitLFS c || isDocker c || isAI c || isHF c.

(** The result object of [validateRequest]. *)
Record Validation : Type := mkValidation {
  valid : bool;
  error : option string;
  errorStatus : option Z
}.

(** ** src/protocols/git.js, ai.js, huggingface.js: header configuration *)

Definition isHexDigit (a : ascii) : bool :=
  let n := nat_of_ascii a in
  ((48 <=? n) && (n <=? 57) || (65 <=? n) && (n <=? 70) || (97 <=? n) && (n <=? 102))%nat.

Fixpoint allChars (p : ascii -> bool) (s : string) : bool :=
  match s with
  | EmptyString => true
  | String a s' => p a && allChars p s'
  end.

(** The path ends with [/objects/] and 64 hexadecimal digits. *)
Definition isLfsObjectPath (path : string) : bool :=
  let n := String.length path in
  (73 <=? n)%nat &&
  let tail := Js.slice (n - 73) path in
  Js.startsWith tail "/objects/" && allChars isHexDigit (Js.slice 9 tail).

Definition setIfMissing (name value : string) (h : Headers) : Headers :=
  if Hdr.has h name then h else Hdr.set name value h.

Definition configureGitHeaders (headers : Headers) (request : Request) (url : URL)
    (isLFS : bool) : Headers :=
  if negb isLFS then
    let headers := setIfMissing "User-Agent" "git/2.34.1" headers in
    let headers :=
      if String.eqb (method request) "POST" && Js.endsWith (pathname url) "/git-upload-pack"
      then setIfMissing "Content-Type" "application/x-git-upload-pack-request" headers
      else headers in
    if String.eqb (method request) "POST" && Js.endsWith (pathname url) "/git-receive-pack"
    then setIfMissing "Content-Type" "application/x-git-receive-pack-request" headers
    else headers
  else
    let headers :=
      setIfMissing "User-Agent" "git-lfs/3.0.0 (GitHub; darwin amd64; go 1.17.2)" headers in
    let headers :=
      if Js.includes (pathname url) "/objects/batch" then
        let headers := setIfMissing "Accept" "application/vnd.git-lfs+json" headers in
        if String.eqb (method request) "POST"
        then setIfMissing "Content-Type" "application/vnd.git-lfs+json" headers
        else headers
      else headers in
    if isLfsObjectPath (pathname url)
    then setIfMissing "Accept" "application/octet-stream" headers
    else headers.

Definition configureAIHeaders (headers : Headers) (request : Request) : Headers :=
  let headers :=
    if String.eqb (method request) "POST"
    then setIfMissing "Content-Type" "application/json" headers
    else headers in
  setIfMissing "User-Agent" "Xget-AI-Proxy/1.0" headers.

Definition configureHuggingFaceHeaders (headers : Headers) (request : Request) : Headers :=
  let headers :=
    match Hdr.get (req_headers request) "Authorization" with
    | Some authHeader =>
        if Js.truthy authHeader then Hdr.set "Authorization" authHeader headers else headers
    | None => headers
    end in
  if String.eqb (method request) "POST"
  then setIfMissing "Content-Type" "application/json" headers
  else headers.

(** ** src/index.js: the pieces of [handleRequest] *)

Definition HOME_PAGE_URL : string := "https://github.com/xixu-me/Xget".

(** [Response.redirect(url, 302)] *)
Definition Response_redirect (url : string) (s : Z) : Response :=
  mkResponse s (Hdr.set "Location" url ∅) None.

(** Platform detection (the [SORTED_PLATFORMS.find(...) || ...split('/')[1]]
    expression); [None] is [undefined]. *)
Definition detectPlatform (effectivePath : string) : option string :=
  match
    find (fun key => Js.startsWith effectivePath (detectPrefix key)) SORTED_PLATFORMS
  with
  | Some key => if Js.truthy key then Some key else nth_error (Js.split "/" effectivePath) 1
  | None => nth_error (Js.split "/" effectivePath) 1
  end.

(** The media-file test on the target URL. *)
Definition mediaExtensions : list string :=
  [ "mp4"; "avi"; "mkv"; "mov"; "wmv"; "flv"; "webm"; "mp3"; "wav"; "flac"; "aac";
    "ogg"; "jpg"; "jpeg"; "png"; "gif"; "bmp"; "svg"; "pdf"; "zip"; "rar"; "7z";
    "tar"; "gz"; "bz2"; "xz" ].
Definition isMediaFile (targetUrl : string) : bool :=
  existsb (fun ext => Js.endsWith (Js.toLowerCase targetUrl) ("." +:+ ext)) mediaExtensions.

Definition hopHeaders : list string := ["host"; "connection"; "upgrade"; "proxy-connection"].

(** The [fetchOptions] object with its [requestHeaders], as built before the
    retry loop. *)
Definition buildFetchOptions (request : Request) (url : URL) (cls : Classification)
    (config : ApplicationConfig) (targetUrl : string) : RequestInit :=
  let withBody :=
    Js.arr_includes ["POST"; "PUT"; "PATCH"; "DELETE"] (method request) && isProtocol cls in
  if isProtocol cls then
    let requestHeaders : Headers :=
      filter (fun kv => Js.arr_includes hopHeaders (Js.toLowerCase kv.1) = false)
        (req_headers request) in
    let requestHeaders := configureGitHeaders requestHeaders request url (isGitLFS cls) in
    let requestHeaders :=
      if isAI cls then configureAIHeaders requestHeaders request else requestHeaders in
    let requestHeaders :=
      if isHF cls then configureHuggingFaceHeaders requestHeaders request
      else requestHeaders in
    mkRequestInit (method request) requestHeaders follow withBody None false
  else
    let requestHeaders : Headers := Hdr.set "Accept-Encoding" "gzip, deflate, br" ∅ in
    let requestHeaders := Hdr.set "Connection" "keep-alive" requestHeaders in
    let requestHeaders := Hdr.set "User-Agent" "Wget/1.21.3" requestHeaders in
    let requestHeaders :=
      Hdr.set "Origin"
        (match Hdr.get (req_headers request) "Origin" with
         | Some o => if Js.truthy o then o else "*"
         | None => "*"
         end) requestHeaders in
    let authorization := Hdr.get (req_headers request) "Authorization" in
    let requestHeaders :=
      match authorization with
      | Some a => if Js.truthy a then Hdr.set "Authorization" a requestHeaders
                  else requestHeaders
      | None => requestHeaders
      end in
    let rangeHeader := Hdr.get (req_headers request) "Range" in
    let requestHeaders :=
      if isMediaFile targetUrl || Js.truthy_opt rangeHeader
      then Hdr.set "Accept-Encoding" "identity" requestHeaders
      else requestHeaders in
    let requestHeaders :=
      match rangeHeader with
      | Some r => if Js.truthy r then Hdr.set "Range" r requestHeaders else requestHeaders
      | None => requestHeaders
      end in
    mkRequestInit (method request) requestHeaders follow withBody
      (Some (CACHE_DURATION config)) false.

(** *** Regular expressions used by [handleRequest] *)

Definition isDigit (a : ascii) : bool :=
  let n := nat_of_ascii a in ((48 <=? n) && (n <=? 57))%nat.

(** The longest prefix of characters satisfying [p], and what follows it. *)
Fixpoint spanChars (p : ascii -> bool) (s : string) : string * string :=
  match s with
  | EmptyString => (EmptyString, EmptyString)
  | String a s' =>
      if p a then let '(run, rest) := spanChars p s' in (String a run, rest)
      else (EmptyString, s)
  end.

(** One or more characters satisfying [p], all of them taken: [None] when
    there is none. *)
Definition somePlus (p : ascii -> bool) (s : string) : option (string * string) :=
  let '(run, rest) := spanChars p s in
  if Js.truthy run then Some (run, rest) else None.

Definition expectChar (c : ascii) (s : string) : option string :=
  match s with
  | String a s' => if Ascii.eqb a c then Some s' else None
  | EmptyString => None
  end.

(** A match of [bytes\s+\d+-\d+\/(\d+)] at the start of [s]: the capture.
    The character classes that follow one another are disjoint, so the greedy
    match never has to give characters back. *)
Definition contentRangeHere (s : string) : option string :=
  if String.prefix "bytes" s then
    match somePlus isStrWhiteSpace (Js.slice 5 s) with
    | Some (_, s1) =>
        match somePlus isDigit s1 with
        | Some (_, s2) =>
            match expectChar "-" s2 with
            | Some s3 =>
                match somePlus isDigit s3 with
                | Some (_, s4) =>
                    match expectChar "/" s4 with
                    | Some s5 => option_map fst (somePlus isDigit s5)
                    | None => None
                    end
                | None => None
                end
            | None => None
            end
        | None => None
        end
    | None => None
    end
  else None.

(** [contentRange.match(/bytes\s+\d+-\d+\/(\d+)/)]: the capture of the
    leftmost match. *)
Fixpoint contentRangeTotal (s : string) : option string :=
  match contentRangeHere s with
  | Some total => Some total
  | None =>
      match s with
      | EmptyString => None
      | String _ s' => contentRangeTotal s'
      end
  end.

(** [text.replace(/p/g, r)] for a literal, non-empty pattern [p]; [skip]
    counts the characters of the current match still to pass over. *)
Fixpoint replaceAllFrom (p r : string) (skip : nat) (s : string) : string :=
  match s with
  | EmptyString => EmptyString
  | String c s' =>
      match skip with
      | S k => replaceAllFrom p r k s'
      | O =>
          if String.prefix p s then r +:+ replaceAllFrom p r (String.length p - 1) s'
          else String c (replaceAllFrom p r O s')
      end
  end.

(** The PyPI rewrite: every [https://files.pythonhosted.org] becomes
    [<origin>/pypi/files]. *)
Definition rewritePypi (origin text : string) : string :=
  replaceAllFrom "https://files.pythonhosted.org" (origin +:+ "/pypi/files") O text.

(** A match of [https:\/\/registry.npmjs.org\/] at the start of [s], where the
    two unescaped dots stand for any character but a line terminator. *)
Fixpoint matchDotted (pat : string) (s : string) : option string :=
  match pat, s with
  | EmptyString, _ => Some s
  | String p pat', String a s' =>
      if Ascii.eqb p "." then
        if ((nat_of_ascii a =? 10) || (nat_of_ascii a =? 13))%nat then None
        else matchDotted pat' s'
      else if Ascii.eqb p a then matchDotted pat' s'
      else None
  | String _ _, EmptyString => None
  end.

Definition npmPattern : string := "https://registry.npmjs.org/".

(** The npm rewrite: every match of the pattern followed by one or more
    characters other than a slash (the package, captured) becomes
    [<origin>/npm/<package>]. *)
Fixpoint rewriteNpmFrom (origin : string) (skip : nat) (s : string) : string :=
  match s with
  | EmptyString => EmptyString
  | String c s' =>
      match skip with
      | S k => rewriteNpmFrom origin k s'
      | O =>
          match matchDotted npmPattern s with
          | Some rest =>
              match somePlus (fun a => negb (Ascii.eqb a "/")) rest with
              | Some (pkg, _) =>
                  origin +:+ "/npm/" +:+ pkg +:+
                  rewriteNpmFrom origin (String.length npmPattern + String.length pkg - 1) s'
              | None => String c (rewriteNpmFrom origin O s')
              end
          | None => String c (rewriteNpmFrom origin O s')
          end
      end
  end.
Definition rewriteNpm (origin text : string) : string := rewriteNpmFrom origin O text.

(** [JSON.stringify(monitor.getMetrics())] *)
Definition metricsJson (marks : list (string * Z)) : string :=
  "{" +:+ Js.join "," (map (fun kv => Json.quote kv.1 +:+ ":" +:+ Js.string_of_Z kv.2) marks)
  +:+ "}".

Inductive Control : Type := Break | Continue.

Section HandleRequest.

Context (rt : Runtime).
(* the request, its parsed URL, the classifier verdicts, the configuration,
   whether [caches.default] exists and whether [ctx.waitUntil] is a function *)
Context (request : Request) (url : URL) (cls : Classification).
Context (config : ApplicationConfig) (cacheAvailable : bool) (waitUntil : bool).

(** [fetchToken(wwwAuthenticate, scope, authorization)] *)
Definition fetchToken (wwwAuthenticate : WwwAuthenticate) (scope authorization : string)
    : M Response :=
  if negb (url_ok rt (realm wwwAuthenticate)) then
    throw (ErrorObj "TypeError" "Invalid URL")
  else
    let params :=
      (if (0 <? String.length (service wwwAuthenticate))%nat
       then [("service", service wwwAuthenticate)] else []) ++
      (if Js.truthy scope then [("scope", scope)] else []) in
    let headers : Headers :=
      if Js.truthy authorization then Hdr.set "Authorization" authorization ∅ else ∅ in
    fetch rt (WithParams (realm wwwAuthenticate) params)
      (mkRequestInit "GET" headers follow false None false).

Definition isRedirectStatus (s : Z) : bool := (s =? 301) || (s =? 302) || (s =? 307).

(** Lines 338-359 and 404-422: the manual redirect of a registry request.
    The [Location] target is fetched with the headers of [options] less
    [Authorization], following further redirects. *)
Definition followDockerRedirect (options : RequestInit) (r : Response) : M Response :=
  if isDocker cls && isRedirectStatus (status r) then
    match Hdr.get (headers r) "Location" with
    | Some location =>
        if Js.truthy location then
          let redirectHeaders := Hdr.delete "Authorization" (init_headers options) in
          fetch rt (Href location)
            (mkRequestInit (init_method options) redirectHeaders follow
               (init_body options) (init_cf options) (init_signal options))
        else ret r
    | None => ret r
    end
  else ret r.

Section Attempt.

Context (effectivePath platform targetUrl : string) (fetchOptions : RequestInit).

Definition finalFetchOptions : RequestInit :=
  mkRequestInit (init_method fetchOptions) (init_headers fetchOptions)
    (if isDocker cls then manual else init_redirect fetchOptions)
    (init_body fetchOptions) (init_cf fetchOptions) true.

(** Lines 295-334: the upstream fetch, with the [Content-Length] backfill
    of a [HEAD] request. *)
Definition fetchUpstream : M unit :=
  if String.eqb (method request) "HEAD" then
    r <- fetch rt (Href targetUrl) finalFetchOptions ;;
    setResponse r ;;;
    if ok r && negb (Js.truthy_opt (Hdr.get (headers r) "Content-Length")) then
      let rangeHeaders := Hdr.set "Range" "bytes=0-0" (init_headers fetchOptions) in
      rangeResponse <-
        fetch rt (Href targetUrl)
          (mkRequestInit "GET" rangeHeaders (init_redirect finalFetchOptions)
             (init_body finalFetchOptions) (init_cf finalFetchOptions) true) ;;
      let contentLength : option string :=
        if status rangeResponse =? 206 then
          match Hdr.get (headers rangeResponse) "Content-Range" with
          | Some contentRange =>
              if Js.truthy contentRange then contentRangeTotal contentRange else None
          | None => None
          end
        else if ok rangeResponse then Hdr.get (headers rangeResponse) "Content-Length"
        else None in
      match contentLength with
      | Some len =>
          if Js.truthy len then
            r' <- lift (newResponse NullBody (status r)
                          (Hdr.set "Content-Length" len (headers r))) ;;
            setResponse r'
          else ret tt
      | None => ret tt
      end
    else ret tt
  else
    r <- fetch rt (Href targetUrl) finalFetchOptions ;;
    setResponse r.

(** Lines 375-434: the token negotiation after a 401 challenge; [true]
    when the retried request succeeded (the source then breaks out of the
    loop with the retried response). *)
Definition negotiateToken (authenticateStr scope : string) : M bool :=
  tryCatch
    (wwwAuthenticate <- lift (parseAuthenticate authenticateStr) ;;
     tokenResponse <- fetchToken wwwAuthenticate scope EmptyString ;;
     if ok tokenResponse then
       token <- lift (json_token rt (text tokenResponse)) ;;
       match token with
       | Some tok =>
           if Js.truthy tok then
             let retryHeaders :=
               Hdr.set "Authorization" ("Bearer " +:+ tok) (init_headers fetchOptions) in
             let retryOptions :=
               mkRequestInit (init_method finalFetchOptions) retryHeaders
                 (if isDocker cls then manual else init_redirect finalFetchOptions)
                 (init_body finalFetchOptions) (init_cf finalFetchOptions) true in
             retryResponse <- fetch rt (Href targetUrl) retryOptions ;;
             retryResponse <- followDockerRedirect retryOptions retryResponse ;;
             if ok retryResponse then
               setResponse retryResponse ;;;
               mark rt "success" ;;;
               ret true
             else ret false
           else ret false
       | None => ret false
       end
     else ret false)
    (fun _ => ret false).

(** Lines 276-450: the body of the [try] block of one attempt. *)
Definition attemptBody : M Control :=
  n <- getAttempts ;;
  mark rt ("attempt_" +:+ Js.string_of_Z n) ;;;
  emit (EvAbortTimer (TIMEOUT_SECONDS config * 1000)) ;;;
  fetchUpstream ;;;
  emit EvClearTimeout ;;;
  current <- getResponse ;;
  match current with
  | None => throw (ErrorObj "TypeError" "response is undefined")
  | Some r =>
      r <- followDockerRedirect finalFetchOptions r ;;
      setResponse r ;;;
      if ok r || (status r =? 206) then
        mark rt "success" ;;; ret Break
      else if isDocker cls && (status r =? 401) then
        mark rt "docker_auth_challenge" ;;;
        let authenticateStr := Hdr.get (headers r) "WWW-Authenticate" in
        let scope := getScopeFromUrl (pathname url) effectivePath platform in
        done <-
          match authenticateStr with
          | Some a => if Js.truthy a then negotiateToken a scope else ret false
          | None => ret false
          end ;;
        if done : bool then ret Break
        else
          u <- lift (responseUnauthorized (hostname url)) ;;
          setResponse u ;;;
          ret Break
      else if (400 <=? status r) && (status r <? 500) then
        mark rt "client_error" ;;; ret Break
      else
        setAttempts (n + 1) ;;;
        (if n + 1 <? MAX_RETRIES config
         then sleep (RETRY_DELAY_MS config * (n + 1)) else ret tt) ;;;
        ret Continue
  end.

(** Lines 451-469: the [catch] block of one attempt. *)
Definition attemptCatch (error : Thrown) : M Control :=
  n <- getAttempts ;;
  setAttempts (n + 1) ;;;
  if Js.isAbortError error then
    r <- errorResponse rt "Request timeout" 408 false ;;
    setResponse r ;;;
    ret Break
  else if MAX_RETRIES config <=? n + 1 then
    let message := Js.errorMessage error in
    r <- errorResponse rt
           ("Failed after " +:+ Js.string_of_Z (MAX_RETRIES config) +:+ " attempts: "
            +:+ message) 500 true ;;
    setResponse r ;;;
    ret Break
  else
    sleep (RETRY_DELAY_MS config * (n + 1)) ;;;
    ret Continue.

(** Lines 274-470: [while (attempts < config.MAX_RETRIES) { try ... catch ... }].
    [fuel] bounds the number of iterations; [retryLoop_fuel] shows that the
    loop never needs more than [MAX_RETRIES - attempts] of them. *)
Fixpoint retryLoop (fuel : nat) : M unit :=
  match fuel with
  | O => ret tt
  | S fuel' =>
      n <- getAttempts ;;
      if n <? MAX_RETRIES config then
        c <- tryCatch attemptBody attemptCatch ;;
        match c with
        | Break => ret tt
        | Continue => retryLoop fuel'
        end
      else ret tt
  end.

(** Lines 273-470: [let attempts = 0; while ...]. *)
Definition retry : M unit :=
  setAttempts 0 ;;;
  retryLoop (Z.to_nat (MAX_RETRIES config)).

End Attempt.

End HandleRequest.

Section HandleRequestStages.

Context (rt : Runtime).
Context (request : Request) (url : URL) (cls : Classification).
Context (config : ApplicationConfig) (cacheAvailable : bool) (waitUntil : bool).

(** [Boolean(authorization || Cookie || Proxy-Authorization)] *)
Definition hasSensitiveHeaders : bool :=
  Js.truthy_opt (Hdr.get (req_headers request) "Authorization") ||
  Js.truthy_opt (Hdr.get (req_headers request) "Cookie") ||
  Js.truthy_opt (Hdr.get (req_headers request) "Proxy-Authorization").

(** The condition under which the cache is consulted at all. *)
Definition cacheable : bool :=
  cacheAvailable && negb (isGit cls) && negb (isGitLFS cls) && negb (isDocker cls) &&
  negb (isAI cls) && negb (isHF cls) && negb hasSensitiveHeaders.

(** The two cache keys built from the request: with the request headers as
    they are, and with the [Range] header filtered out. *)
Definition asRequestedKey (targetUrl : string) : CacheKey :=
  mkCacheKey targetUrl "GET" (req_headers request).
Definition fullContentKey (targetUrl : string) : CacheKey :=
  mkCacheKey targetUrl "GET" (Hdr.without "range" (req_headers request)).

(** Lines 146-187: the cache lookup. *)
Definition cacheLookup (targetUrl : string) : M unit :=
  if cacheable then
    tryCatch
      (cachedResponse <- cacheMatch rt (asRequestedKey targetUrl) ;;
       match cachedResponse with
       | Some r => mark rt "cache_hit" ;;; setResponse r
       | None =>
           if Js.truthy_opt (Hdr.get (req_headers request) "Range") then
             fullCachedResponse <- cacheMatch rt (fullContentKey targetUrl) ;;
             match fullCachedResponse with
             | Some r => mark rt "cache_hit_full_content" ;;; setResponse r
             | None => ret tt
             end
           else ret tt
       end)
      (fun _ => ret tt)
  else ret tt.

(** Lines 577-626: the cache population after a successful fetch;
    [r] is the response about to be returned. *)
Definition cacheStore (targetUrl : string) (r : Response) : M unit :=
  if cacheable && String.eqb (method request) "GET" && ok r && (status r =? 200) then
    let rangeHeader := Hdr.get (req_headers request) "Range" in
    let cacheKey :=
      if Js.truthy_opt rangeHeader then fullContentKey targetUrl
      else mkCacheKey targetUrl "GET" ∅ in
    tryCatch
      (emit (EvCachePut cacheKey r waitUntil) ;;;
       if Js.truthy_opt rangeHeader && (status r =? 200) then
         rangedResponse <- cacheMatch rt (asRequestedKey targetUrl) ;;
         match rangedResponse with
         | Some ranged => mark rt "range_cache_hit_after_full_cache" ;;; setResponse ranged
         | None => ret tt
         end
       else ret tt)
      (fun _ => ret tt)
  else ret tt.

Definition contentTypeIncludes (r : Response) (what : string) : bool :=
  match Hdr.get (headers r) "content-type" with
  | Some ct => Js.includes ct what
  | None => false
  end.

(** Lines 502-627: the success case. *)
Definition processSuccess (platform targetUrl : string) (r : Response) : M unit :=
  let responseBody := passBody r in
  let responseBody :=
    if String.eqb platform "pypi" && contentTypeIncludes r "text/html"
    then StreamBody (rewritePypi (origin url) (text r)) else responseBody in
  let responseBody :=
    if String.eqb platform "npm" && contentTypeIncludes r "application/json"
    then StreamBody (rewriteNpm (origin url) (text r)) else responseBody in
  let headers0 := headers r in
  let headers1 :=
    if negb (isProtocol cls) then
      let h :=
        if hasSensitiveHeaders then
          let h := Hdr.set "Cache-Control" "private, no-store" headers0 in
          let existingVary := Hdr.get h "Vary" in
          Hdr.set "Vary"
            (match existingVary with
             | Some v => if Js.truthy v then v +:+ ", Authorization, Cookie"
                         else "Authorization, Cookie"
             | None => "Authorization, Cookie"
             end) h
        else
          Hdr.set "Cache-Control"
            ("public, max-age=" +:+ Js.string_of_Z (CACHE_DURATION config)) headers0 in
      let h := Hdr.set "X-Content-Type-Options" "nosniff" h in
      let h := Hdr.set "Accept-Ranges" "bytes" h in
      let h :=
        if negb (Hdr.has h "Content-Length") && (status r =? 200) then
          match Hdr.get (headers r) "Content-Length" with
          | Some contentLength =>
              if Js.truthy contentLength then Hdr.set "Content-Length" contentLength h
              else h
          | None => h
          end
        else h in
      addSecurityHeaders h
    else headers0 in
  r' <- lift (newResponse responseBody (status r) headers1) ;;
  setResponse r' ;;;
  cacheStore targetUrl r'.

(** Lines 472-627: what becomes of the response the retry loop left behind. *)
Definition finish (platform targetUrl : string) : M unit :=
  current <- getResponse ;;
  match current with
  | None =>
      r <- errorResponse rt "No response received after all retry attempts" 500 true ;;
      setResponse r
  | Some r =>
      if negb (ok r) && negb (status r =? 206) then
        if isDocker cls && (status r =? 401) then
          let isCustomError :=
            match Hdr.get (headers r) "content-type" with
            | Some ct => String.eqb ct "application/json" &&
                         Js.includes (text r) "UNAUTHORIZED"
            | None => false
            end in
          if negb isCustomError then
            let errorText := text r in
            e <- errorResponse rt
                   ("Authentication required for this container registry resource. This may be a private repository. Original error: "
                    +:+ errorText) 401 true ;;
            setResponse e
          else ret tt
        else
          let errorText := text r in
          e <- errorResponse rt
                 ("Upstream server error (" +:+ Js.string_of_Z (status r) +:+ "): "
                  +:+ errorText) (status r) true ;;
          setResponse e
      else processSuccess platform targetUrl r
  end.

(** Lines 189-628: the upstream exchange, entered when the cache gave no
    response. *)
Definition fetchStage (effectivePath platform targetUrl : string) : M unit :=
  let fetchOptions := buildFetchOptions request url cls config targetUrl in
  retry rt request url cls config effectivePath platform targetUrl fetchOptions ;;;
  finish platform targetUrl.

End HandleRequestStages.

Section TopLevel.

Context (rt : Runtime).
Context (request : Request) (url : URL) (cls : Classification).
Context (cacheAvailable : bool) (waitUntil : bool).

(** src/protocols/docker.js: [handleDockerAuth(request, url, config)] *)
Definition handleDockerAuth (config : ApplicationConfig) : M Response :=
  match scopeParam url with
  | None => errorResponse rt "Missing scope parameter" 400 false
  | Some scope =>
      if negb (Js.truthy scope) then errorResponse rt "Missing scope parameter" 400 false
      else
        let parts := Js.split ":" scope in
        if (length parts <? 3)%nat ||
           negb (String.eqb (nth 0 parts EmptyString) "repository")
        then errorResponse rt "Invalid scope format" 400 false
        else
          let fullRepoPath := nth 1 parts EmptyString in
          let found :=
            find (fun key =>
                    Js.startsWith key "cr-" &&
                    Js.startsWith fullRepoPath (Js.replaceAllChar "-" "/" key +:+ "/"))
                 SORTED_PLATFORMS in
          let platformKey := default EmptyString found in
          let repoPath :=
            match found with
            | Some key => Js.slice (String.length (Js.replaceAllChar "-" "/" key) + 1)
                            fullRepoPath
            | None => EmptyString
            end in
          match tableGet (CONFIG_PLATFORMS config) platformKey with
          | Some upstreamUrl =>
              if negb (Js.truthy platformKey) || negb (Js.truthy upstreamUrl) then
                errorResponse rt "Unsupported registry platform in scope" 400 false
              else
                let authorization := Hdr.get (req_headers request) "Authorization" in
                if negb (url_ok rt (upstreamUrl +:+ "/v2/")) then
                  throw (ErrorObj "TypeError" "Invalid URL")
                else
                  v2Resp <- fetch rt (Href (upstreamUrl +:+ "/v2/"))
                              (mkRequestInit "GET" ∅ follow false None false) ;;
                  if negb (status v2Resp =? 401) then ret v2Resp
                  else
                    match Hdr.get (headers v2Resp) "WWW-Authenticate" with
                    | None => ret v2Resp
                    | Some authenticateStr =>
                        wwwAuthenticate <- lift (parseAuthenticate authenticateStr) ;;
                        let newScope :=
                          "repository:" +:+ repoPath +:+ ":" +:+
                          Js.join ":" (drop 2 parts) in
                        fetchToken rt wwwAuthenticate newScope
                          (match authorization with
                           | Some a => a
                           | None => EmptyString
                           end)
                    end
          | None => errorResponse rt "Unsupported registry platform in scope" 400 false
          end
  end.

(** src/utils/performance.js: [addPerformanceHeaders(response, monitor)] *)
Definition addPerformanceHeaders (r : Response) : M Response :=
  fun s =>
    let h := Hdr.set "X-Performance-Metrics" (metricsJson (marks s)) (headers r) in
    (newResponse (passBody r) (status r) (addSecurityHeaders h), s).

(** Lines 89-629: routing of a validated request to its platform. *)
Definition routeToPlatform (config : ApplicationConfig) (effectivePath : string)
    : M unit :=
  let platform := detectPlatform effectivePath in
  match platform with
  | None => setResponse (Response_redirect HOME_PAGE_URL 302)
  | Some platform =>
      match tableGet (CONFIG_PLATFORMS config) platform with
      | None => setResponse (Response_redirect HOME_PAGE_URL 302)
      | Some base =>
          if negb (Js.truthy platform) || negb (Js.truthy base) then
            setResponse (Response_redirect HOME_PAGE_URL 302)
          else
            let platformPath := "/" +:+ Js.replaceAllChar "-" "/" platform in
            if String.eqb effectivePath platformPath ||
               String.eqb effectivePath (platformPath +:+ "/")
            then setResponse (Response_redirect HOME_PAGE_URL 302)
            else
              let targetPath := transformPath effectivePath platform in
              let finalTargetPath :=
                if Js.startsWith platform "cr-" then "/v2" +:+ targetPath
                else targetPath in
              let targetUrl := base +:+ finalTargetPath +:+ search url in
              cacheLookup rt request cls cacheAvailable targetUrl ;;;
              current <- getResponse ;;
              match current with
              | Some _ => ret tt
              | None =>
                  fetchStage rt request url cls config cacheAvailable waitUntil
                    effectivePath platform targetUrl
              end
      end
  end.

(** [handleRequest(request, env, ctx)]. [env] is [None] when no environment
    is passed; [validation] is the result of
    [validateRequest(request, url, config)]. [None] as a result is
    [undefined]. *)
Definition handleRequest (env : option (gmap string string)) (validation : Validation)
    : M (option Response) :=
  newMonitor rt ;;;
  tryCatch
    (let config := match env with Some e => createConfig e | None => CONFIG end in
     if isDocker cls && (String.eqb (pathname url) "/v2/" || String.eqb (pathname url) "/v2")
     then
       let headers :=
         Hdr.set "Content-Type" "application/json"
           (Hdr.set "Docker-Distribution-Api-Version" "registry/2.0" ∅) in
       r <- lift (newResponse (StringBody "{}") 200 (addSecurityHeaders headers)) ;;
       setResponse r
     else if String.eqb (pathname url) "/" || String.eqb (pathname url) EmptyString then
       setResponse (Response_redirect HOME_PAGE_URL 302)
     else if negb (valid validation) then
       r <- errorResponse rt
              (match error validation with
               | Some e => if Js.truthy e then e else "Validation failed"
               | None => "Validation failed"
               end)
              (match errorStatus validation with
               | Some st => if st =? 0 then 400 else st
               | None => 400
               end) false ;;
       setResponse r
     else if isDocker cls then
       if negb (Js.startsWith (pathname url) "/cr/") &&
          negb (Js.startsWith (pathname url) "/v2/cr/") &&
          negb (String.eqb (pathname url) "/v2/auth")
       then
         r <- errorResponse rt "container registry requests must use /cr/ prefix" 400 false ;;
         setResponse r
       else
         let effectivePath := Js.replaceAtStart "/v2" EmptyString (pathname url) in
         if String.eqb (pathname url) "/v2/auth" then
           r <- handleDockerAuth config ;;
           setResponse r
         else routeToPlatform config effectivePath
     else routeToPlatform config (pathname url))
    (fun error =>
       r <- errorResponse rt ("Internal Server Error: " +:+ Js.errorMessage error) 500 true ;;
       setResponse r) ;;;
  mark rt "complete" ;;;
  current <- getResponse ;;
  if isProtocol cls then ret current
  else
    match current with
    | Some r => r' <- addPerformanceHeaders r ;; ret (Some r')
    | None => throw (ErrorObj "TypeError" "Cannot read properties of undefined")
    end.

End TopLevel.

(** ** Notions used to state the properties *)

(** The comparator [(a, b) => m(b) - m(a)]: larger measure first. *)
Definition descending {A} (m : A -> nat) (a b : A) : Z := Z.of_nat (m b) - Z.of_nat (m a).

(** [a] comes before [b] in descending order of the measure. *)
Definition atLeast {A} (m : A -> nat) (a b : A) : Prop := (m b <= m a)%nat.

(** The length of the prefix a key is matched with. *)
Definition prefixLength (key : string) : nat := String.length (detectPrefix key).

(** Whether no other registered key has a prefix that extends the prefix of
    [k]. *)
Definition unextended (k : string) : bool :=
  forallb (fun k' => implb (String.prefix (detectPrefix k) (detectPrefix k')) (String.eqb k' k))
    SORTED_PLATFORMS.

(** [emits P m]: whatever the state and the runtime's answers, [m] only adds
    events to the trace, and every event it adds satisfies [P]. *)
Definition emits {A} (P : Event -> Prop) (m : M A) : Prop :=
  forall s, exists evs, trace (m s).2 = trace s ++ evs /\ Forall P evs.

(** [preserves f m]: [m] leaves the quantity [f] of the state as it was. *)
Definition preserves {A X} (f : State -> X) (m : M A) : Prop :=
  forall s, f (m s).2 = f s.

(** [returns m]: [m] never throws. *)
Definition returns {A} (m : M A) : Prop :=
  forall s, exists a, (m s).1 = Ok a.



Definition isCachePut (e : Event) : bool :=
  match e with EvCachePut _ _ _ => true | _ => false end.


(** [continues n m]: run with [attempts = n], the piece [m] of a loop
    iteration asks for another iteration only after it has counted this one;
    when it throws, the count is still [n]. *)
Definition continues (n : Z) (m : M Control) : Prop :=
  forall s, attempts s = n ->
    match m s with
    | (Ok Continue, s') => attempts s' = n + 1
    | (Ok Break, _) => True
    | (Throw _, s') => attempts s' = n
    end.

(** [wp m s Q]: run from the state [s], the computation [m] ends with a
    result and a state that satisfy [Q]. *)
Definition wp {A} (m : M A) (s : State) (Q : result A -> State -> Prop) : Prop :=
  Q (m s).1 (m s).2.

(** The state [s] after the event [e]. *)
Definition after (s : State) (e : Event) : State :=
  mkState (response s) (attempts s) (startTime s) (marks s) (clock s) (trace s ++ [e]).


(** What one attempt adds to the trace when its fetch has the outcome [o]
    and nothing follows the fetch but the end of the timer. *)
Definition attemptEvents (config : ApplicationConfig) (n : Z) (target : string)
    (init : RequestInit) (o : result Response) : list Event :=
  [EvMark ("attempt_" +:+ Js.string_of_Z n);
   EvAbortTimer (TIMEOUT_SECONDS config * 1000);
   EvFetch (Href target) init] ++
  match o with Ok _ => [EvClearTimeout] | Throw _ => [] end.

(** The response of [createErrorResponse('Request timeout', 408)]. *)
Definition timeoutResponse : Response :=
  mkResponse 408 (addSecurityHeaders (Hdr.set "Content-Type" "text/plain" ∅))
    (Some "Request timeout").



(** ** The cache store *)

(** The keys under which responses were put into the cache. *)
Definition putKeys (tr : list Event) : list CacheKey :=
  flat_map (fun e => match e with EvCachePut k _ _ => [k] | _ => [] end) tr.

(** What holds of every store: the request is a [GET], the stored response
    has status 200, and the key is a [GET] of the target with the request
    headers minus [Range] for a ranged request, and with no headers
    otherwise. *)
Definition storePolicy (request : Request) (e : Event) : Prop :=
  match e with
  | EvCachePut key r _ =>
      method request = "GET" /\ status r = 200 /\
      key_method key = "GET" /\
      key_headers key =
        if Js.truthy_opt (Hdr.get (req_headers request) "Range")
        then Hdr.without "range" (req_headers request)
        else ∅
  | _ => True
  end.

(** ** Registry redirects *)

(** A fetch that follows redirects carries no [Authorization] header. *)
Definition noAuthorizationOnFollow (e : Event) : Prop :=
  match e with
  | EvFetch _ init =>
      init_redirect init = follow -> Hdr.get (init_headers init) "Authorization" = None
  | _ => True
  end.

(** The options of the request retried with a bearer token. *)
Definition bearerOptions (cls : Classification) (fetchOptions : RequestInit)
    (token : string) : RequestInit :=
  mkRequestInit (init_method fetchOptions)
    (Hdr.set "Authorization" ("Bearer " +:+ token) (init_headers fetchOptions))
    (if isDocker cls then manual else init_redirect fetchOptions)
    (init_body fetchOptions) (init_cf fetchOptions) true.

(** The anonymous token request sent to the realm of a challenge. *)
Definition tokenTarget (w : WwwAuthenticate) (scope : string) : Target :=
  WithParams (realm w)
    ((if (0 <? String.length (service w))%nat then [("service", service w)] else []) ++
     (if Js.truthy scope then [("scope", scope)] else [])).
Definition tokenOptions : RequestInit := mkRequestInit "GET" ∅ follow false None false.

(** The fetches of a trace, in order. *)
Definition fetches (tr : list Event) : list (Target * RequestInit) :=
  flat_map (fun e => match e with EvFetch t i => [(t, i)] | _ => [] end) tr.

(** * Concrete runs

    A runtime whose upstream answers from a script, and a plain [GET] of a
    file on the [gh] platform. *)

Module Example.

Definition isoTime (_ : Z) : string := "2024-01-01T00:00:00.000Z".

(** The n-th fetch of the request is answered by the n-th entry of
    [script], and by [otherwise] when the script is over; the cache is
    empty. *)
Definition scripted (script : list (result Response)) (otherwise : result Response)
    : Runtime :=
  mkRuntime (fun n _ _ => nth n script otherwise) (fun _ _ => Ok None)
    (fun n => Z.of_nat n) isoTime (fun _ => true) (fun _ => Ok None).

Definition found : Response :=
  mkResponse 200 (Hdr.set "Content-Type" "text/plain" ∅) (Some "hello").
Definition aborted : Thrown := ErrorObj "AbortError" "The operation was aborted".

Definition getRequest : Request := mkRequest "GET" (Hdr.set "Accept" "text/plain" ∅).
Definition fileUrl : URL :=
  mkURL "/gh/user/repo/raw/main/README.md" EmptyString "https://xget.example"
    "xget.example" None.
Definition target : string := "https://github.com/user/repo/raw/main/README.md".
Definition plain : Classification := mkClassification false false false false false.
Definition accepted : Validation := mkValidation true None None.

(** [handleRequest] for that request, with the cache available. *)
Definition run (rt : Runtime) (env : option (gmap string string))
    : result (option Response) * State :=
  handleRequest rt getRequest fileUrl plain true true env accepted initialState.

(** The status and the body text of the response it returns. *)
Definition outcome (x : result (option Response)) : option (Z * string) :=
  match x with
  | Ok (Some r) => Some (status r, text r)
  | _ => None
  end.

Definition options : RequestInit :=
  buildFetchOptions getRequest fileUrl plain CONFIG target.

(** The state in which an attempt ends whose fetch is aborted. *)
Definition afterAbort : State :=
  (attemptBody (scripted [Throw aborted] (Ok found)) getRequest fileUrl plain CONFIG
     (pathname fileUrl) "gh" target options initialState).2.

(** A registry request: the upstream first hands out a token, then answers
    the retried request by a redirect to a blob store. *)
Definition registry : Classification := mkClassification true false false false false.
Definition tokenResponse : Response := mkResponse 200 ∅ (Some "token document").
Definition blobUrl : string := "https://blobs.example/sha256/0a1b".
Definition redirected : Response := mkResponse 307 (Hdr.set "Location" blobUrl ∅) None.
Definition registryRuntime : Runtime :=
  mkRuntime (fun n _ _ => nth n [Ok tokenResponse; Ok redirected] (Ok found))
    (fun _ _ => Ok None) (fun n => Z.of_nat n) isoTime (fun _ => true)
    (fun _ => Ok (Some "t0ken")).
Definition manifestUrl : string := "https://ghcr.io/v2/user/image/manifests/latest".
Definition registryOptions : RequestInit :=
  mkRequestInit "GET" (Hdr.set "Accept" "application/json" ∅) follow false None false.
Definition quoted (s : string) : string :=
  String Json.dquote (s +:+ String Json.dquote EmptyString).
Definition challenge : string :=
  "Bearer realm=" +:+ quoted "https://ghcr.io/token" +:+ ",service=" +:+ quoted "ghcr.io".
Definition challengeParsed : WwwAuthenticate :=
  mkWwwAuthenticate "https://ghcr.io/token" "ghcr.io".
Definition pullScope : string := "repository:user/image:pull".

End Example.

(** * Properties *)

(** ** Strings *)

Lemma append_nil_l (s : string) : EmptyString +:+ s = s.
Proof. reflexivity. Qed.

Lemma append_cons (c : ascii) (a b : string) : String c a +:+ b = String c (a +:+ b).
Proof. reflexivity. Qed.

Lemma append_nil_r (s : string) : s +:+ EmptyString = s.
Proof. induction s as [|c s IH]; [reflexivity | now rewrite append_cons, IH]. Qed.

Lemma append_assoc (a b c : string) : (a +:+ b) +:+ c = a +:+ (b +:+ c).
Proof.
  induction a as [|x a IH]; [reflexivity | now rewrite !append_cons, IH].
Qed.

Lemma length_append (a b : string) :
  String.length (a +:+ b) = (String.length a + String.length b)%nat.
Proof.
  induction a as [|c a IH]; [reflexivity |].
  rewrite append_cons. simpl. now rewrite IH.
Qed.

Lemma prefix_nil (s : string) : String.prefix EmptyString s = true.
Proof. now destruct s. Qed.

Lemma prefix_cons (c d : ascii) (p s : string) :
  String.prefix (String c p) (String d s) = (Ascii.eqb c d && String.prefix p s).
Proof.
  simpl. destruct (ascii_dec c d) as [E|N].
  - subst. now rewrite Ascii.eqb_refl.
  - apply Ascii.eqb_neq in N. now rewrite N.
Qed.

Lemma prefix_cons_nil (c : ascii) (p : string) :
  String.prefix (String c p) EmptyString = false.
Proof. reflexivity. Qed.

Lemma prefix_append (p r : string) : String.prefix p (p +:+ r) = true.
Proof.
  induction p as [|c p IH]; [apply prefix_nil |].
  now rewrite append_cons, prefix_cons, Ascii.eqb_refl.
Qed.


Lemma prefix_split (p s : string) :
  String.prefix p s = true -> s = p +:+ Js.slice (String.length p) s.
Proof.
  revert s. induction p as [|c p IH]; intros s H.
  - reflexivity.
  - destruct s as [|d s]; [discriminate|].
    rewrite prefix_cons in H. apply andb_prop in H as [E H].
    apply Ascii.eqb_eq in E. subst d.
    rewrite append_cons. simpl. f_equal. now apply IH.
Qed.

Lemma prefix_length (p s : string) :
  String.prefix p s = true -> (String.length p <= String.length s)%nat.
Proof.
  intros H. rewrite (prefix_split p s H), length_append. lia.
Qed.

(** Two prefixes of one string: the shorter is a prefix of the longer. *)
Lemma prefix_comparable (a b s : string) :
  String.prefix a s = true -> String.prefix b s = true ->
  (String.length a <= String.length b)%nat ->
  String.prefix a b = true.
Proof.
  revert b s. induction a as [|c a IH]; intros b s Ha Hb Hlen.
  - apply prefix_nil.
  - destruct b as [|d b]; [simpl in Hlen; lia|].
    destruct s as [|e s]; [discriminate|].
    rewrite prefix_cons in *.
    apply andb_prop in Ha as [Ea Ha]. apply andb_prop in Hb as [Eb Hb].
    apply Ascii.eqb_eq in Ea, Eb. subst c d.
    rewrite Ascii.eqb_refl. simpl in Hlen |- *.
    apply (IH b s); [assumption | assumption | lia].
Qed.

Lemma prefix_trans (a b s : string) :
  String.prefix a b = true -> String.prefix b s = true -> String.prefix a s = true.
Proof.
  intros Hab Hbs. rewrite (prefix_split b s Hbs), (prefix_split a b Hab).
  rewrite append_assoc. apply prefix_append.
Qed.

Lemma prefix_first_char (c : ascii) (p s : string) :
  String.prefix (String c p) s = true -> exists s', s = String c s'.
Proof.
  destruct s as [|d s]; [discriminate|].
  rewrite prefix_cons. intros H. apply andb_prop in H as [E _].
  apply Ascii.eqb_eq in E. subst. eauto.
Qed.

Lemma arr_includes_In (l : list string) (x : string) :
  Js.arr_includes l x = true <-> In x l.
Proof.
  unfold Js.arr_includes. rewrite existsb_exists. split.
  - intros (y & Hy & E). apply String.eqb_eq in E. now subst.
  - intros H. exists x. split; [assumption | apply String.eqb_refl].
Qed.


(** ** Error responses (src/utils/security.js) *)

(** [createErrorResponse] returns (rather than throws) for every status a
    response with a body may carry. *)
Lemma createErrorResponse_returns (timestamp message : string) (s : Z) (includeDetails : bool) :
  200 <= s <= 599 -> nullBodyStatus s = false ->
  exists r, createErrorResponse timestamp message s includeDetails = Ok r.
Proof.
  intros Hs Hn. unfold createErrorResponse, newResponse.
  replace ((200 <=? s) && (s <=? 599)) with true
    by (symmetry; apply andb_true_intro; split; apply Z.leb_le; lia).
  rewrite Hn. simpl. eauto.
Qed.

(** C10. Every response that [createErrorResponse] produces, whatever the
    message, the status and the [includeDetails] flag, has the given status,
    the content type [application/json] with details and [text/plain]
    without, and all six security headers. *)
Theorem createErrorResponse_security_headers
    (timestamp message : string) (s : Z) (includeDetails : bool) (r : Response) :
  createErrorResponse timestamp message s includeDetails = Ok r ->
  status r = s /\
  Hdr.get (headers r) "Content-Type" =
    Some (if includeDetails then "application/json" else "text/plain") /\
  Hdr.get (headers r) "Strict-Transport-Security" =
    Some "max-age=31536000; includeSubDomains; preload" /\
  Hdr.get (headers r) "X-Frame-Options" = Some "DENY" /\
  Hdr.get (headers r) "X-XSS-Protection" = Some "1; mode=block" /\
  Hdr.get (headers r) "Referrer-Policy" = Some "strict-origin-when-cross-origin" /\
  Hdr.get (headers r) "Content-Security-Policy" =
    Some "default-src 'none'; img-src 'self'; script-src 'none'" /\
  Hdr.get (headers r) "Permissions-Policy" = Some "interest-cohort=()".
Proof.
  unfold createErrorResponse, newResponse.
  destruct (negb ((200 <=? s) && (s <=? 599))); [discriminate|].
  destruct (nullBodyStatus s && true); [discriminate|].
  destruct includeDetails; intros [= <-]; cbn [status headers];
    repeat split; vm_compute; reflexivity.
Qed.

Lemma createErrorResponse_security_headers_witness :
  exists r,
    createErrorResponse EmptyString "Request timeout" 408 false = Ok r /\
    status r = 408 /\
    Hdr.get (headers r) "Content-Type" = Some "text/plain" /\
    Hdr.get (headers r) "Strict-Transport-Security" =
      Some "max-age=31536000; includeSubDomains; preload" /\
    Hdr.get (headers r) "X-Frame-Options" = Some "DENY" /\
    Hdr.get (headers r) "X-XSS-Protection" = Some "1; mode=block" /\
    Hdr.get (headers r) "Referrer-Policy" = Some "strict-origin-when-cross-origin" /\
    Hdr.get (headers r) "Content-Security-Policy" =
      Some "default-src 'none'; img-src 'self'; script-src 'none'" /\
    Hdr.get (headers r) "Permissions-Policy" = Some "interest-cohort=()".
Proof.
  destruct (createErrorResponse_returns EmptyString "Request timeout" 408 false)
    as [r Hr]; [lia | reflexivity |].
  exists r. split; [exact Hr |].
  exact (createErrorResponse_security_headers EmptyString "Request timeout" 408 false r Hr).
Defined.

(** ** Configuration (src/config/index.js) *)

(** [parseInt] reads back the decimal digits that [String] prints. *)
Lemma parseDigits_uint_acc (u : Decimal.uint) (acc : positive) :
  parseDigits (Some (Z.pos acc)) (NilEmpty.string_of_uint u) =
  Some (Z.pos (Pos.of_uint_acc u acc)).
Proof.
  revert acc. induction u; intros acc; simpl; try reflexivity;
    rewrite <- IHu; f_equal; f_equal; lia.
Qed.

Lemma parseDigits_uint_zero (u : Decimal.uint) :
  parseDigits (Some 0) (NilEmpty.string_of_uint u) = Some (Z.of_N (Pos.of_uint u)).
Proof.
  induction u; simpl; try reflexivity; try exact IHu;
    apply (parseDigits_uint_acc u).
Qed.

Lemma parseDigits_uint (u : Decimal.uint) :
  u <> Decimal.Nil ->
  parseDigits None (NilEmpty.string_of_uint u) = Some (Z.of_N (Pos.of_uint u)).
Proof.
  intros Hu. destruct u; try congruence; simpl;
    first [ apply (parseDigits_uint_zero u) | apply (parseDigits_uint_acc u) ].
Qed.

Lemma to_uint_not_nil (p : positive) : Pos.to_uint p <> Decimal.Nil.
Proof.
  intros H. pose proof (DecimalPos.Unsigned.of_to p) as E.
  rewrite H in E. discriminate.
Qed.

Lemma toDouble_small (z : Z) : 0 < z < 2 ^ 53 -> toDouble z = z.
Proof.
  intros Hz. unfold toDouble.
  assert (Z.log2 z < 53) by (apply Z.log2_lt_pow2; lia).
  destruct (Z.log2 z + 1 <=? 53) eqn:E; [reflexivity|].
  apply Z.leb_gt in E. lia.
Qed.

Lemma parseInt10_minus (s : string) :
  parseInt10 (String "-" s) =
  match parseDigits None s with Some v => Some (-1 * toDouble v) | None => None end.
Proof. reflexivity. Qed.

Lemma string_of_uint_not_nil (u : Decimal.uint) :
  u <> Decimal.Nil -> NilZero.string_of_uint u = NilEmpty.string_of_uint u.
Proof. destruct u; [congruence | reflexivity ..]. Qed.

(** [parseInt(String(-n), 10)] is [-n] for the integers a double holds exactly. *)
Lemma parseInt10_negative (n : Z) :
  0 < n < 2 ^ 53 -> parseInt10 (Js.string_of_Z (- n)) = Some (- n).
Proof.
  intros Hn. destruct n as [|p|p]; try lia.
  unfold Js.string_of_Z. simpl Z.opp. simpl Z.to_int.
  unfold NilZero.string_of_int.
  rewrite (string_of_uint_not_nil _ (to_uint_not_nil p)), parseInt10_minus.
  rewrite (parseDigits_uint _ (to_uint_not_nil p)), DecimalPos.Unsigned.of_to.
  simpl Z.of_N. rewrite toDouble_small by assumption. reflexivity.
Qed.

Lemma intSetting_zero (env : gmap string string) (name : string) (fallback : Z) :
  env !! name = Some "0" -> intSetting env name fallback = fallback.
Proof.
  intros H. unfold intSetting, envString. rewrite H. reflexivity.
Qed.

Lemma intSetting_negative (env : gmap string string) (name : string) (fallback n : Z) :
  0 < n < 2 ^ 53 ->
  env !! name = Some (Js.string_of_Z (- n)) -> intSetting env name fallback = - n.
Proof.
  intros Hn H. unfold intSetting, envString. rewrite H. simpl default.
  rewrite (parseInt10_negative n Hn).
  destruct (- n =? 0) eqn:E; [apply Z.eqb_eq in E; lia | reflexivity].
Qed.

Lemma createConfig_setting (env : gmap string string) (k : NumericSetting) :
  settingValue k (createConfig env) = intSetting env (settingName k) (settingDefault k).
Proof. destruct k; reflexivity. Qed.

(** C9. When the environment gives a numeric setting as the string [0],
    [createConfig] returns the default of that setting (30, 3, 1000, 1800,
    2048), because the parsed zero is falsy; a negative integer string [-n]
    is accepted as the value [-n] (for every [n] a double holds exactly). *)
Theorem createConfig_zero_is_default
    (env : gmap string string) (k : NumericSetting) (v : string) :
  env !! settingName k = Some v ->
  (v = "0" -> settingValue k (createConfig env) = settingDefault k) /\
  (forall n, 0 < n < 2 ^ 53 -> v = Js.string_of_Z (- n) ->
             settingValue k (createConfig env) = - n).
Proof.
  intros H. rewrite createConfig_setting. split.
  - intros ->. now apply intSetting_zero.
  - intros n Hn ->. now apply intSetting_negative.
Qed.

Lemma createConfig_zero_is_default_witness :
  MAX_RETRIES (createConfig {[ "MAX_RETRIES" := "0" ]}) = 3 /\
  RETRY_DELAY_MS (createConfig {[ "RETRY_DELAY_MS" := "-250" ]}) = -250.
Proof.
  split.
  - apply (createConfig_zero_is_default {[ "MAX_RETRIES" := "0" ]} MaxRetries "0");
      reflexivity.
  - assert (H : ({[ "RETRY_DELAY_MS" := "-250" ]} : gmap string string)
                 !! settingName RetryDelayMs = Some "-250") by reflexivity.
    apply (proj2 (createConfig_zero_is_default _ RetryDelayMs _ H) 250);
      [lia | reflexivity].
Defined.

(** ** Path transformation (src/config/platforms.js) *)

Lemma startsWith_false_replaceAtStart (p r s : string) :
  Js.startsWith s p = false -> Js.replaceAtStart p r s = s.
Proof. unfold Js.startsWith, Js.replaceAtStart. now intros ->. Qed.

(** Two strings neither of which is a prefix of the other are not both
    prefixes of one string. *)
Lemma prefix_exclusive (a b s : string) :
  String.prefix a b = false -> String.prefix b a = false ->
  String.prefix a s = true -> String.prefix b s = false.
Proof.
  intros Hab Hba Ha. destruct (String.prefix b s) eqn:Hb; [|reflexivity].
  destruct (le_ge_dec (String.length a) (String.length b)) as [L|L].
  - rewrite (prefix_comparable a b s Ha Hb L) in Hab. discriminate.
  - rewrite (prefix_comparable b a s Hb Ha L) in Hba. discriminate.
Qed.

(** C2. The four documented test vectors of [transformPath]; the last one
    holds for every key that is not in the platform table. *)
Theorem transformPath_test_vectors :
  transformPath "/crates/serde/1.0.0/download" "crates"
    = "/api/v1/crates/serde/1.0.0/download" /\
  transformPath "/crates/?q=tokio" "crates" = "/api/v1/crates?q=tokio" /\
  transformPath "/jenkins/update-center.json" "jenkins" = "/current/update-center.json" /\
  (forall key, assoc key PLATFORMS = None ->
               transformPath "/unknown/x" key = "/unknown/x").
Proof.
  repeat split; try reflexivity.
  intros key Hkey. unfold transformPath, tableGet. rewrite Hkey.
  destruct (Js.arr_includes objectPrototypeKeys key) eqn:Hproto; [|reflexivity].
  apply arr_includes_In in Hproto. simpl in Hproto.
  repeat (destruct Hproto as [<- | Hproto]; [reflexivity|]).
  contradiction.
Qed.

(** C7, as stated, fails for [crates]: a path that is already transformed
    (it does not begin with [/crates/]) gets the API prefix once more. *)
Lemma transformPath_crates_prefixes_twice :
  Js.startsWith "/api/v1/crates/serde" (platformPrefix "crates") = false /\
  transformPath "/crates/serde" "crates" = "/api/v1/crates/serde" /\
  transformPath "/api/v1/crates/serde" "crates" = "/api/v1/crates/api/v1/crates/serde" /\
  transformPath "/api/v1/crates/serde" "crates" <> "/api/v1/crates/serde".
Proof. repeat split; try reflexivity. discriminate. Qed.

Lemma transformPath_jenkins_kept (p : string) :
  Js.startsWith p (platformPrefix "jenkins") = false ->
  Js.startsWith p "/current/" || Js.startsWith p "/experimental/" ||
    Js.startsWith p "/download/" = true ->
  transformPath p "jenkins" = p.
Proof.
  intros Hp Hkeep. unfold transformPath.
  change (negb (Js.truthy_opt (tableGet PLATFORMS "jenkins"))) with false.
  cbv iota. rewrite (startsWith_false_replaceAtStart _ _ _ Hp).
  change (String.eqb "jenkins" "crates") with false.
  change (String.eqb "jenkins" "homebrew-api") with false.
  change (String.eqb "jenkins" "homebrew-bottles") with false.
  change (String.eqb "jenkins" "jenkins") with true.
  cbv iota. cbn [andb].
  assert (Hslash : Js.startsWith p "/" = true).
  { unfold Js.startsWith in *.
    apply orb_prop in Hkeep as [Hkeep|Hkeep]; [apply orb_prop in Hkeep as [Hkeep|Hkeep]|];
      refine (prefix_trans _ _ _ _ Hkeep); reflexivity. }
  rewrite Hslash.
  assert (H1 : String.eqb p "/update-center.json" = false).
  { apply String.eqb_neq. intros ->. discriminate Hkeep. }
  assert (H2 : String.eqb p "/update-center.actual.json" = false).
  { apply String.eqb_neq. intros ->. discriminate Hkeep. }
  rewrite H1, H2.
  destruct (Js.startsWith p "/current/"), (Js.startsWith p "/experimental/"),
    (Js.startsWith p "/download/"); try reflexivity; discriminate Hkeep.
Qed.

(** What [transformPath] returns for [jenkins] lies under one of the three
    upstream directories, unless the path has no leading slash at all and is
    returned as it is. *)
Lemma transformPath_jenkins_shape (p : string) :
  Js.startsWith (transformPath p "jenkins") "/current/" ||
    Js.startsWith (transformPath p "jenkins") "/experimental/" ||
    Js.startsWith (transformPath p "jenkins") "/download/" = true \/
  transformPath p "jenkins" = p.
Proof.
  unfold transformPath.
  change (negb (Js.truthy_opt (tableGet PLATFORMS "jenkins"))) with false.
  cbv iota.
  change (String.eqb "jenkins" "crates") with false.
  change (String.eqb "jenkins" "homebrew-api") with false.
  change (String.eqb "jenkins" "homebrew-bottles") with false.
  change (String.eqb "jenkins" "jenkins") with true.
  change (String.eqb "jenkins" "homebrew") with false.
  cbv iota. cbn [andb].
  set (t := Js.replaceAtStart (platformPrefix "jenkins") "/" p).
  destruct (Js.startsWith t "/") eqn:Hslash.
  - left.
    destruct (String.eqb t "/update-center.json"); [reflexivity|].
    destruct (String.eqb t "/update-center.actual.json"); [reflexivity|].
    destruct (Js.startsWith t "/experimental/" || Js.startsWith t "/download/" ||
              Js.startsWith t "/current/") eqn:Hkeep.
    + destruct (Js.startsWith t "/current/"), (Js.startsWith t "/experimental/"),
        (Js.startsWith t "/download/"); try reflexivity; discriminate Hkeep.
    + destruct (prefix_first_char "/" EmptyString t Hslash) as [t' ->].
      change ("/current" +:+ String "/" t') with ("/current/" +:+ t').
      unfold Js.startsWith. now rewrite prefix_append.
  - right. unfold t, Js.replaceAtStart in *.
    destruct (String.prefix (platformPrefix "jenkins") p); [|reflexivity].
    unfold Js.startsWith in Hslash. rewrite prefix_append in Hslash. discriminate Hslash.
Qed.

(** Whatever [transformPath] returns for [jenkins] is left alone by a second
    application. *)
Lemma transformPath_jenkins_idempotent (p : string) :
  transformPath (transformPath p "jenkins") "jenkins" = transformPath p "jenkins".
Proof.
  destruct (transformPath_jenkins_shape p) as [Hkeep | Hsame].
  - apply transformPath_jenkins_kept; [|exact Hkeep].
    unfold Js.startsWith in *.
    apply orb_prop in Hkeep as [Hkeep|Hkeep];
      [apply orb_prop in Hkeep as [Hkeep|Hkeep]|];
      refine (prefix_exclusive _ _ _ _ _ Hkeep); reflexivity.
  - now rewrite !Hsame.
Qed.

(** C7 (amended). A path that does not begin with the key's prefix is
    returned unchanged for every key other than [crates] and [jenkins]; for
    [jenkins] when it already lies under [/current/], [/experimental/] or
    [/download/], so that a second application for [jenkins] changes nothing;
    and for every key when the path has no leading slash. For [crates] the
    API prefix is put in front of such a path. *)
Theorem transformPath_without_prefix (p k : string) :
  Js.startsWith p (platformPrefix k) = false ->
  (k <> "crates" -> k <> "jenkins" -> transformPath p k = p) /\
  (k = "jenkins" ->
   Js.startsWith p "/current/" || Js.startsWith p "/experimental/" ||
     Js.startsWith p "/download/" = true ->
   transformPath p k = p) /\
  (Js.startsWith p "/" = false -> transformPath p k = p) /\
  (k = "crates" -> Js.startsWith p "/" = true -> p <> "/" -> Js.startsWith p "/?" = false ->
   transformPath p k = "/api/v1/crates" +:+ p) /\
  (forall q, transformPath (transformPath q "jenkins") "jenkins" = transformPath q "jenkins").
Proof.
  intros Hp. repeat split.
  - intros Hc Hj. unfold transformPath.
    destruct (negb (Js.truthy_opt (tableGet PLATFORMS k))); [reflexivity|].
    rewrite (startsWith_false_replaceAtStart _ _ _ Hp).
    apply String.eqb_neq in Hc, Hj. rewrite Hc, Hj.
    destruct (String.eqb k "homebrew-api" && Js.startsWith p "/"); [reflexivity|].
    destruct (String.eqb k "homebrew-bottles" && Js.startsWith p "/"); [reflexivity|].
    cbn [andb].
    destruct (String.eqb k "homebrew" && Js.startsWith p "/"); reflexivity.
  - intros -> Hkeep. now apply transformPath_jenkins_kept.
  - intros Hslash. unfold transformPath.
    destruct (negb (Js.truthy_opt (tableGet PLATFORMS k))); [reflexivity|].
    rewrite (startsWith_false_replaceAtStart _ _ _ Hp), Hslash.
    destruct (String.eqb k "crates"); rewrite Hslash, !andb_false_r; reflexivity.
  - intros -> Hslash Hroot Hquery. unfold transformPath.
    change (negb (Js.truthy_opt (tableGet PLATFORMS "crates"))) with false.
    cbv iota. rewrite (startsWith_false_replaceAtStart _ _ _ Hp).
    change (String.eqb "crates" "crates") with true. cbv iota.
    apply String.eqb_neq in Hroot. rewrite Hslash, Hroot, Hquery.
    reflexivity.
  - apply transformPath_jenkins_idempotent.
Qed.

Lemma transformPath_without_prefix_witness :
  transformPath "/npm/lodash" "gh" = "/npm/lodash" /\
  transformPath "/current/update-center.json" "jenkins" = "/current/update-center.json" /\
  transformPath "/api/v1/crates/serde" "crates" = "/api/v1/crates" +:+ "/api/v1/crates/serde".
Proof.
  split; [|split].
  - destruct (transformPath_without_prefix "/npm/lodash" "gh" eq_refl) as (H & _).
    apply H; discriminate.
  - destruct (transformPath_without_prefix "/current/update-center.json" "jenkins" eq_refl)
      as (_ & H & _).
    apply H; reflexivity.
  - destruct (transformPath_without_prefix "/api/v1/crates/serde" "crates" eq_refl)
      as (_ & _ & _ & H & _).
    apply H; [reflexivity | reflexivity | discriminate | reflexivity].
Defined.

(** ** Platform detection (src/config/platforms.js, src/index.js) *)

Section SortByMeasure.

Context {A : Type} (m : A -> nat).

Local Abbreviation descending := (descending m).
Local Abbreviation atLeast := (atLeast m).

Lemma sort_insert_perm (x : A) (l : list A) :
  Permutation (x :: l) (sort_insert descending x l).
Proof.
  induction l as [|y l IH]; simpl; [reflexivity|].
  destruct (descending x y <=? 0); [reflexivity|].
  rewrite <- IH. apply perm_swap.
Qed.

Lemma sort_insert_In (x y : A) (l : list A) :
  In y (sort_insert descending x l) -> y = x \/ In y l.
Proof.
  intros H. apply (Permutation_in _ (Permutation_sym (sort_insert_perm x l))) in H.
  destruct H as [->|H]; auto.
Qed.

Lemma sort_insert_sorted (x : A) (l : list A) :
  StronglySorted atLeast l -> StronglySorted atLeast (sort_insert descending x l).
Proof.
  induction 1 as [|y l Hl IH Hy]; simpl.
  - repeat constructor.
  - destruct (descending x y <=? 0) eqn:E.
    + apply Z.leb_le in E. unfold descending in E.
      constructor; [now constructor|].
      constructor; [unfold atLeast; lia|].
      eapply Forall_impl; [exact Hy|]. unfold atLeast. intros; lia.
    + apply Z.leb_gt in E. unfold descending in E.
      constructor; [exact IH|].
      apply List.Forall_forall. intros z Hz. apply sort_insert_In in Hz as [->|Hz].
      * unfold atLeast. lia.
      * rewrite List.Forall_forall in Hy. now apply Hy.
Qed.

(** [Array_sort] with a descending comparator returns its argument
    rearranged in descending order of the measure. *)
Lemma Array_sort_descending (l : list A) :
  Permutation l (Array_sort descending l) /\
  StronglySorted atLeast (Array_sort descending l).
Proof.
  induction l as [|x l [IHp IHs]]; simpl.
  - split; constructor.
  - split.
    + rewrite <- sort_insert_perm. now constructor.
    + now apply sort_insert_sorted.
Qed.

(** In a list in descending order, the first element that passes a test has
    a measure at least that of every element that passes it. *)
Lemma find_sorted_max (f : A -> bool) (l : list A) (r k : A) :
  StronglySorted atLeast l ->
  find f l = Some r -> In k l -> f k = true -> (m k <= m r)%nat.
Proof.
  induction 1 as [|x l Hl IH Hx]; simpl; [discriminate|].
  intros Hfind Hk Hfk. destruct (f x) eqn:Hfx.
  - injection Hfind as <-. destruct Hk as [<-|Hk]; [lia|].
    rewrite List.Forall_forall in Hx. now apply Hx.
  - destruct Hk as [<-|Hk]; [congruence|]. now apply IH.
Qed.

End SortByMeasure.

Lemma SORTED_PLATFORMS_spec :
  Permutation PLATFORM_KEYS SORTED_PLATFORMS /\
  StronglySorted (atLeast prefixLength) SORTED_PLATFORMS.
Proof. apply (Array_sort_descending prefixLength PLATFORM_KEYS). Qed.

Lemma SORTED_PLATFORMS_In (k : string) : In k SORTED_PLATFORMS <-> In k PLATFORM_KEYS.
Proof.
  destruct SORTED_PLATFORMS_spec as [Hp _]. split; apply Permutation_in;
    [now apply Permutation_sym | assumption].
Qed.

(** A path that begins with the prefix of a registered key, where no other
    registered key has a prefix that extends this one, resolves to that key. *)
Lemma detectPlatform_unextended (k p : string) :
  In k SORTED_PLATFORMS ->
  (forall k', In k' SORTED_PLATFORMS ->
              String.prefix (detectPrefix k) (detectPrefix k') = true -> k' = k) ->
  Js.startsWith p (detectPrefix k) = true ->
  detectPlatform p = Some k.
Proof.
  intros Hk Huniq Hp. unfold detectPlatform.
  set (f := fun key => Js.startsWith p (detectPrefix key)).
  destruct (find f SORTED_PLATFORMS) as [r|] eqn:Hfind.
  - destruct (find_some _ _ Hfind) as [Hr Hfr].
    assert (Hlen : (prefixLength k <= prefixLength r)%nat).
    { apply (find_sorted_max prefixLength f SORTED_PLATFORMS r k);
        [apply SORTED_PLATFORMS_spec | assumption ..]. }
    assert (r = k) as ->.
    { apply Huniq; [assumption|].
      apply (prefix_comparable _ _ p); assumption. }
    assert (Hnonempty : forallb Js.truthy SORTED_PLATFORMS = true) by (vm_compute; reflexivity).
    rewrite forallb_forall in Hnonempty. now rewrite (Hnonempty k Hk).
  - exfalso. pose proof (find_none _ _ Hfind k Hk) as Hnone.
    unfold f in Hnone. congruence.
Qed.

Lemma unextended_spec (k k' : string) :
  unextended k = true -> In k' SORTED_PLATFORMS ->
  String.prefix (detectPrefix k) (detectPrefix k') = true -> k' = k.
Proof.
  unfold unextended. rewrite forallb_forall. intros H Hk' Hpre.
  specialize (H k' Hk'). rewrite Hpre in H. now apply String.eqb_eq.
Qed.

(** C3. Candidate keys are tried in descending order of prefix length, so
    that of two registered keys, one with a path prefix that properly extends
    the other's, the key with the longer prefix is selected for every path
    that begins with it; and every path that begins with [/cr/docker/]
    resolves to [cr-docker]. *)
Theorem detectPlatform_prefers_longer_prefix :
  StronglySorted (fun a b => (String.length (detectPrefix b) <= String.length (detectPrefix a))%nat)
    SORTED_PLATFORMS /\
  (forall k1 k2 p,
      In k1 PLATFORM_KEYS -> In k2 PLATFORM_KEYS ->
      String.prefix (platformPrefix k1) (platformPrefix k2) = true ->
      platformPrefix k1 <> platformPrefix k2 ->
      Js.startsWith p (platformPrefix k2) = true ->
      detectPlatform p = Some k2) /\
  (forall p, Js.startsWith p "/cr/docker/" = true -> detectPlatform p = Some "cr-docker").
Proof.
  split; [apply SORTED_PLATFORMS_spec|]. split.
  - intros k1 k2 p H1 H2 Hpre Hne Hp.
    assert (Hcheck :
      forallb (fun k2 =>
        forallb (fun k1 =>
          implb (String.prefix (platformPrefix k1) (platformPrefix k2) &&
                 negb (String.eqb (platformPrefix k1) (platformPrefix k2)))
                (unextended k2 && String.eqb (detectPrefix k2) (platformPrefix k2)))
          PLATFORM_KEYS) PLATFORM_KEYS = true) by (vm_compute; reflexivity).
    rewrite forallb_forall in Hcheck. specialize (Hcheck k2 H2).
    rewrite forallb_forall in Hcheck. specialize (Hcheck k1 H1).
    rewrite Hpre in Hcheck. apply String.eqb_neq in Hne. rewrite Hne in Hcheck.
    cbn [andb negb implb] in Hcheck. apply andb_prop in Hcheck as [Hun Heq].
    apply String.eqb_eq in Heq.
    apply detectPlatform_unextended.
    + now apply SORTED_PLATFORMS_In.
    + intros k' Hk'. now apply unextended_spec.
    + now rewrite Heq.
  - intros p Hp. apply detectPlatform_unextended.
    + apply SORTED_PLATFORMS_In. vm_compute. tauto.
    + intros k' Hk'. apply unextended_spec; [vm_compute; reflexivity | assumption].
    + exact Hp.
Qed.

Lemma detectPlatform_prefers_longer_prefix_witness :
  detectPlatform "/pypi/files/packages/ab/cd/wheel.whl" = Some "pypi-files" /\
  detectPlatform "/cr/docker/library/ubuntu/manifests/latest" = Some "cr-docker".
Proof.
  destruct detectPlatform_prefers_longer_prefix as (_ & Hpair & Hdocker).
  split.
  - apply (Hpair "pypi" "pypi-files"); [vm_compute; tauto | vm_compute; tauto |
      reflexivity | discriminate | reflexivity].
  - apply Hdocker. reflexivity.
Defined.

(** ** Scope derivation (src/protocols/docker.js) *)

Lemma split_single (c : ascii) (a : string) :
  allChars (fun x => negb (Ascii.eqb x c)) a = true -> Js.split c a = [a].
Proof.
  induction a as [|x a IH]; simpl; [reflexivity|].
  intros H. apply andb_prop in H as [Hx Ha].
  apply negb_true_iff in Hx. rewrite Hx, (IH Ha). reflexivity.
Qed.







(** ** Reasoning about the handler's computations *)

Lemma count_app (p : Event -> bool) (a b : list Event) :
  count p (a ++ b) = (count p a + count p b)%nat.
Proof. induction a as [|e a IH]; simpl; [reflexivity | rewrite IH; lia]. Qed.



Section Rules.

Context {A B : Type}.

Lemma bind_run (m : M A) (k : A -> M B) (s : State) :
  bind m k s =
  match m s with
  | (Ok a, s') => k a s'
  | (Throw e, s') => (Throw e, s')
  end.
Proof. reflexivity. Qed.

Lemma tryCatch_run (m : M A) (h : Thrown -> M A) (s : State) :
  tryCatch m h s =
  match m s with
  | (Ok a, s') => (Ok a, s')
  | (Throw e, s') => h e s'
  end.
Proof. reflexivity. Qed.

Lemma emits_ret (P : Event -> Prop) (a : A) : emits P (ret a).
Proof. intros s. exists []. split; [now rewrite app_nil_r | constructor]. Qed.

Lemma emits_throw (P : Event -> Prop) (e : Thrown) : emits P (@throw A e).
Proof. intros s. exists []. split; [now rewrite app_nil_r | constructor]. Qed.

Lemma emits_lift (P : Event -> Prop) (r : result A) : emits P (lift r).
Proof. intros s. exists []. split; [now rewrite app_nil_r | constructor]. Qed.

Lemma emits_bind (P : Event -> Prop) (m : M A) (k : A -> M B) :
  emits P m -> (forall a, emits P (k a)) -> emits P (bind m k).
Proof.
  intros Hm Hk s. rewrite bind_run. destruct (Hm s) as (evs & Ht & Hevs).
  destruct (m s) as [[a|e] s1]; simpl in *.
  - destruct (Hk a s1) as (evs' & Ht' & Hevs').
    exists (evs ++ evs'). split.
    + now rewrite Ht', Ht, app_assoc.
    + now apply Forall_app.
  - now exists evs.
Qed.

Lemma emits_tryCatch (P : Event -> Prop) (m : M A) (h : Thrown -> M A) :
  emits P m -> (forall e, emits P (h e)) -> emits P (tryCatch m h).
Proof.
  intros Hm Hh s. rewrite tryCatch_run. destruct (Hm s) as (evs & Ht & Hevs).
  destruct (m s) as [[a|e] s1]; simpl in *.
  - now exists evs.
  - destruct (Hh e s1) as (evs' & Ht' & Hevs').
    exists (evs ++ evs'). split.
    + now rewrite Ht', Ht, app_assoc.
    + now apply Forall_app.
Qed.

Lemma emits_weaken (P Q : Event -> Prop) (m : M A) :
  (forall e, P e -> Q e) -> emits P m -> emits Q m.
Proof.
  intros HPQ Hm s. destruct (Hm s) as (evs & Ht & Hevs).
  exists evs. split; [assumption|]. eapply Forall_impl; eauto.
Qed.

Context {X : Type} (f : State -> X).

Lemma preserves_ret (a : A) : preserves f (ret a).
Proof. intros s. reflexivity. Qed.

Lemma preserves_throw (e : Thrown) : preserves f (@throw A e).
Proof. intros s. reflexivity. Qed.

Lemma preserves_lift (r : result A) : preserves f (lift r).
Proof. intros s. reflexivity. Qed.

Lemma preserves_bind (m : M A) (k : A -> M B) :
  preserves f m -> (forall a, preserves f (k a)) -> preserves f (bind m k).
Proof.
  intros Hm Hk s. rewrite bind_run. specialize (Hm s).
  destruct (m s) as [[a|e] s1]; simpl in *; [|assumption].
  now rewrite (Hk a s1).
Qed.

Lemma preserves_tryCatch (m : M A) (h : Thrown -> M A) :
  preserves f m -> (forall e, preserves f (h e)) -> preserves f (tryCatch m h).
Proof.
  intros Hm Hh s. rewrite tryCatch_run. specialize (Hm s).
  destruct (m s) as [[a|e] s1]; simpl in *; [assumption|].
  now rewrite (Hh e s1).
Qed.

End Rules.

Lemma returns_ret {A} (a : A) : returns (ret a).
Proof. intros s. now exists a. Qed.

Lemma returns_bind {A B} (m : M A) (k : A -> M B) :
  returns m -> (forall a, returns (k a)) -> returns (bind m k).
Proof.
  intros Hm Hk s. rewrite bind_run. destruct (Hm s) as [a Ha].
  destruct (m s) as [r s1]; simpl in *. subst r. apply Hk.
Qed.

Lemma returns_tryCatch {A} (m : M A) (h : Thrown -> M A) :
  (forall e, returns (h e)) -> returns (tryCatch m h).
Proof.
  intros Hh s. rewrite tryCatch_run.
  destruct (m s) as [[a|e] s1]; simpl; [now exists a | apply Hh].
Qed.

(** *** The primitive actions *)

Lemma emits_getResponse (P : Event -> Prop) : emits P getResponse.
Proof. intros s. exists []. split; [now rewrite app_nil_r | constructor]. Qed.

Lemma emits_setResponse (P : Event -> Prop) (r : Response) : emits P (setResponse r).
Proof. intros s. exists []. split; [simpl; now rewrite app_nil_r | constructor]. Qed.

Lemma emits_getAttempts (P : Event -> Prop) : emits P getAttempts.
Proof. intros s. exists []. split; [now rewrite app_nil_r | constructor]. Qed.

Lemma emits_setAttempts (P : Event -> Prop) (n : Z) : emits P (setAttempts n).
Proof. intros s. exists []. split; [simpl; now rewrite app_nil_r | constructor]. Qed.

Lemma emits_emit (P : Event -> Prop) (e : Event) : P e -> emits P (emit e).
Proof. intros He s. exists [e]. split; [reflexivity | now repeat constructor]. Qed.

Lemma emits_dateNow (P : Event -> Prop) (rt : Runtime) : emits P (dateNow rt).
Proof. intros s. exists []. split; [simpl; now rewrite app_nil_r | constructor]. Qed.

Lemma emits_mark (P : Event -> Prop) (rt : Runtime) (name : string) :
  P (EvMark name) -> emits P (mark rt name).
Proof.
  intros He. unfold mark. apply emits_bind; [apply emits_dateNow | intros t].
  apply emits_bind; [|intros _; now apply emits_emit].
  intros s. exists []. split; [simpl; now rewrite app_nil_r | constructor].
Qed.

Lemma emits_fetch (P : Event -> Prop) (rt : Runtime) (t : Target) (i : RequestInit) :
  P (EvFetch t i) -> emits P (fetch rt t i).
Proof.
  intros He. unfold fetch. apply emits_bind; [|intros n].
  - intros s. exists []. split; [simpl; now rewrite app_nil_r | constructor].
  - apply emits_bind; [now apply emits_emit | intros _; apply emits_lift].
Qed.

Lemma emits_cacheMatch (P : Event -> Prop) (rt : Runtime) (k : CacheKey) :
  P (EvCacheMatch k) -> emits P (cacheMatch rt k).
Proof.
  intros He. unfold cacheMatch. apply emits_bind; [|intros n].
  - intros s. exists []. split; [simpl; now rewrite app_nil_r | constructor].
  - apply emits_bind; [now apply emits_emit | intros _; apply emits_lift].
Qed.

Lemma emits_sleep (P : Event -> Prop) (ms : Z) : P (EvSleep ms) -> emits P (sleep ms).
Proof. apply emits_emit. Qed.

Lemma emits_errorResponse (P : Event -> Prop) (rt : Runtime) (msg : string) (st : Z)
    (d : bool) : emits P (errorResponse rt msg st d).
Proof.
  unfold errorResponse. destruct d; [|apply emits_lift].
  apply emits_bind; [apply emits_dateNow | intros t; apply emits_lift].
Qed.

Lemma mark_run (rt : Runtime) (name : string) (s : State) :
  mark rt name s =
  (Ok tt,
   mkState (response s) (attempts s) (startTime s)
     (mapSet name (date_now rt (clock s) - startTime s) (marks s)) (S (clock s))
     (trace s ++ [EvMark name])).
Proof. reflexivity. Qed.

Lemma fetch_run (rt : Runtime) (t : Target) (i : RequestInit) (s : State) :
  fetch rt t i s =
  (fetch_result rt (count isFetch (trace s)) t i,
   mkState (response s) (attempts s) (startTime s) (marks s) (clock s)
     (trace s ++ [EvFetch t i])).
Proof. reflexivity. Qed.

Lemma emit_run (e : Event) (s : State) :
  emit e s =
  (Ok tt,
   mkState (response s) (attempts s) (startTime s) (marks s) (clock s) (trace s ++ [e])).
Proof. reflexivity. Qed.

Lemma preserves_attempts_getResponse : preserves attempts getResponse.
Proof. intros s. reflexivity. Qed.

Lemma preserves_attempts_setResponse (r : Response) : preserves attempts (setResponse r).
Proof. intros s. reflexivity. Qed.

Lemma preserves_attempts_getAttempts : preserves attempts getAttempts.
Proof. intros s. reflexivity. Qed.

Lemma preserves_attempts_emit (e : Event) : preserves attempts (emit e).
Proof. intros s. reflexivity. Qed.

Lemma preserves_attempts_dateNow (rt : Runtime) : preserves attempts (dateNow rt).
Proof. intros s. reflexivity. Qed.

Lemma preserves_attempts_mark (rt : Runtime) (name : string) :
  preserves attempts (mark rt name).
Proof. intros s. reflexivity. Qed.

Lemma preserves_attempts_fetch (rt : Runtime) (t : Target) (i : RequestInit) :
  preserves attempts (fetch rt t i).
Proof. intros s. reflexivity. Qed.

Lemma preserves_attempts_cacheMatch (rt : Runtime) (k : CacheKey) :
  preserves attempts (cacheMatch rt k).
Proof. intros s. reflexivity. Qed.

Lemma preserves_attempts_errorResponse (rt : Runtime) (msg : string) (st : Z) (d : bool) :
  preserves attempts (errorResponse rt msg st d).
Proof. intros s. unfold errorResponse. destruct d; reflexivity. Qed.

Lemma returns_errorResponse (rt : Runtime) (msg : string) (st : Z) (d : bool) :
  200 <= st <= 599 -> nullBodyStatus st = false -> returns (errorResponse rt msg st d).
Proof.
  intros Hst Hnull s. unfold errorResponse. destruct d.
  - rewrite bind_run. cbn.
    destruct (createErrorResponse_returns
                (toISOString rt (date_now rt (clock s))) msg st true Hst Hnull) as [r Hr].
    unfold lift. rewrite Hr. now exists r.
  - destruct (createErrorResponse_returns EmptyString msg st false Hst Hnull) as [r Hr].
    unfold lift. simpl. rewrite Hr. now exists r.
Qed.

Create HintDb emits discriminated.
Create HintDb keeps discriminated.

#[export] Hint Resolve emits_getResponse emits_setResponse emits_getAttempts emits_setAttempts
  emits_dateNow emits_errorResponse : emits.
#[export] Hint Resolve preserves_attempts_getResponse preserves_attempts_setResponse
  preserves_attempts_getAttempts preserves_attempts_emit preserves_attempts_dateNow
  preserves_attempts_mark preserves_attempts_fetch preserves_attempts_cacheMatch
  preserves_attempts_errorResponse : keeps.

(** Decomposition of a goal [emits P m] along the structure of [m]; the
    events it finds are left as goals [P e]. *)
Ltac emits_step :=
  lazymatch goal with
  | |- emits _ (bind _ _) => apply emits_bind; [|intros ?]
  | |- emits _ (tryCatch _ _) => apply emits_tryCatch; [|intros ?]
  | |- emits _ (ret _) => apply emits_ret
  | |- emits _ (throw _) => apply emits_throw
  | |- emits _ (lift _) => apply emits_lift
  | |- emits _ (emit _) => apply emits_emit
  | |- emits _ (mark _ _) => apply emits_mark
  | |- emits _ (fetch _ _ _) => apply emits_fetch
  | |- emits _ (cacheMatch _ _) => apply emits_cacheMatch
  | |- emits _ (sleep _) => apply emits_sleep
  | |- emits _ (if ?b then _ else _) => destruct b eqn:?
  | |- emits _ (match ?x with _ => _ end) => destruct x eqn:?
  | |- emits _ _ => solve [eauto with emits]
  end.

Ltac keeps_step :=
  lazymatch goal with
  | |- preserves _ (bind _ _) => apply preserves_bind; [|intros ?]
  | |- preserves _ (tryCatch _ _) => apply preserves_tryCatch; [|intros ?]
  | |- preserves _ (ret _) => apply preserves_ret
  | |- preserves _ (throw _) => apply preserves_throw
  | |- preserves _ (lift _) => apply preserves_lift
  | |- preserves _ (if ?b then _ else _) => destruct b eqn:?
  | |- preserves _ (match ?x with _ => _ end) => destruct x eqn:?
  | |- preserves _ _ => solve [eauto with keeps]
  end.

(** ** The retry loop (src/index.js, lines 273-470) *)

Section LoopFacts.

Context (rt : Runtime).
Context (request : Request) (url : URL) (cls : Classification).
Context (config : ApplicationConfig).
Context (effectivePath platform targetUrl : string) (fetchOptions : RequestInit).

Local Abbreviation body :=
  (attemptBody rt request url cls config effectivePath platform targetUrl fetchOptions).
Local Abbreviation handler := (attemptCatch rt config).
Local Abbreviation loop :=
  (retryLoop rt request url cls config effectivePath platform targetUrl fetchOptions).

(** *** What the loop may emit *)

Section Emits.

Context (P : Event -> Prop).
Hypothesis P_fetch : forall t i, P (EvFetch t i).
Hypothesis P_timer : forall ms, P (EvAbortTimer ms).
Hypothesis P_clear : P EvClearTimeout.
Hypothesis P_sleep : forall ms, P (EvSleep ms).
Hypothesis P_mark : forall name, String.prefix "attempt_" name = false -> P (EvMark name).

Lemma emits_fetchToken (w : WwwAuthenticate) (scope authorization : string) :
  emits P (fetchToken rt w scope authorization).
Proof. unfold fetchToken. repeat emits_step; auto. Qed.

Lemma emits_followDockerRedirect (options : RequestInit) (r : Response) :
  emits P (followDockerRedirect rt cls options r).
Proof. unfold followDockerRedirect. repeat emits_step; auto. Qed.

Lemma emits_fetchUpstream :
  emits P (fetchUpstream rt request cls targetUrl fetchOptions).
Proof. unfold fetchUpstream. repeat emits_step; auto. Qed.

Lemma emits_negotiateToken (a scope : string) :
  emits P (negotiateToken rt cls targetUrl fetchOptions a scope).
Proof.
  unfold negotiateToken.
  repeat first [ apply emits_fetchToken | apply emits_followDockerRedirect | emits_step ];
    auto.
Qed.

Lemma emits_attemptCatch (e : Thrown) : emits P (handler e).
Proof. unfold attemptCatch. repeat emits_step; auto. Qed.

(** One run of the [try] block: the mark of the attempt, then events
    satisfying [P]. *)
Lemma attemptBody_trace (s : State) :
  exists evs,
    trace (body s).2 =
      trace s ++ EvMark ("attempt_" +:+ Js.string_of_Z (attempts s)) :: evs /\
    Forall P evs.
Proof.
  unfold attemptBody. rewrite bind_run. cbn [getAttempts]. rewrite bind_run, mark_run.
  cbv beta iota.
  lazymatch goal with
  | |- ex (fun evs => trace (snd (?m ?sm)) = _ /\ _) =>
      assert (H : emits P m)
        by (repeat first [ apply emits_fetchUpstream | apply emits_followDockerRedirect
                         | apply emits_negotiateToken | emits_step ]; auto);
      destruct (H sm) as (evs & Ht & Hevs); exists evs;
      destruct (m sm) as [[c|e] s1]
  end; cbn [snd trace] in *; (split; [|assumption]);
    now rewrite Ht, <- app_assoc.
Qed.

(** One iteration of the loop, [try] and [catch] together. *)
Lemma iteration_trace (s : State) :
  exists evs,
    trace (tryCatch body handler s).2 =
      trace s ++ EvMark ("attempt_" +:+ Js.string_of_Z (attempts s)) :: evs /\
    Forall P evs.
Proof.
  destruct (attemptBody_trace s) as (evs & Ht & Hevs). rewrite tryCatch_run.
  destruct (body s) as [[c|e] s1]; cbn [snd] in *.
  - now exists evs.
  - destruct (emits_attemptCatch e s1) as (evs' & Ht' & Hevs').
    exists (evs ++ evs'). split.
    + rewrite Ht', Ht, <- app_assoc. reflexivity.
    + now apply Forall_app.
Qed.

Hypothesis P_attempt : forall name, P (EvMark name).

Lemma emits_iteration : emits P (tryCatch body handler).
Proof.
  intros s. destruct (iteration_trace s) as (evs & Ht & Hevs).
  eexists. split; [exact Ht|]. constructor; [apply P_attempt | assumption].
Qed.

Lemma emits_retryLoop (fuel : nat) : emits P (loop fuel).
Proof.
  induction fuel as [|fuel IH]; simpl; [apply emits_ret|].
  repeat first [ apply emits_iteration | exact IH | emits_step ].
Qed.

End Emits.

(** *** The loop never throws *)

Lemma returns_attemptCatch (e : Thrown) : returns (handler e).
Proof.
  unfold attemptCatch. apply returns_bind; [intros s; now eexists|intros n].
  apply returns_bind; [intros s; now eexists|intros _].
  destruct (Js.isAbortError e).
  - apply returns_bind; [apply returns_errorResponse; [lia | reflexivity]|intros r].
    apply returns_bind; [intros s; now eexists|intros _]. apply returns_ret.
  - destruct (MAX_RETRIES config <=? n + 1).
    + apply returns_bind; [apply returns_errorResponse; [lia | reflexivity]|intros r].
      apply returns_bind; [intros s; now eexists|intros _]. apply returns_ret.
    + apply returns_bind; [intros s; now eexists|intros _]. apply returns_ret.
Qed.

Lemma returns_iteration : returns (tryCatch body handler).
Proof. apply returns_tryCatch, returns_attemptCatch. Qed.


(** *** The attempt counter *)

Lemma preserves_attempts_fetchToken (w : WwwAuthenticate) (scope authorization : string) :
  preserves attempts (fetchToken rt w scope authorization).
Proof. unfold fetchToken. repeat keeps_step. Qed.

Lemma preserves_attempts_followDockerRedirect (options : RequestInit) (r : Response) :
  preserves attempts (followDockerRedirect rt cls options r).
Proof. unfold followDockerRedirect. repeat keeps_step. Qed.

Lemma preserves_attempts_fetchUpstream :
  preserves attempts (fetchUpstream rt request cls targetUrl fetchOptions).
Proof. unfold fetchUpstream. repeat keeps_step. Qed.

Lemma preserves_attempts_negotiateToken (a scope : string) :
  preserves attempts (negotiateToken rt cls targetUrl fetchOptions a scope).
Proof.
  unfold negotiateToken.
  repeat first [ apply preserves_attempts_fetchToken
               | apply preserves_attempts_followDockerRedirect | keeps_step ].
Qed.

Lemma continues_bind {A} (n : Z) (m : M A) (k : A -> M Control) :
  preserves attempts m -> (forall a, continues n (k a)) -> continues n (bind m k).
Proof.
  intros Hm Hk s Hs. rewrite bind_run. specialize (Hm s).
  destruct (m s) as [[a|e] s1]; simpl in *.
  - apply Hk. congruence.
  - congruence.
Qed.

Lemma continues_Break (n : Z) : continues n (ret Break).
Proof. intros s _. exact I. Qed.

Lemma continues_throw (n : Z) (e : Thrown) : continues n (throw e).
Proof. intros s Hs. exact Hs. Qed.

Lemma continues_attemptBody : forall s, continues (attempts s) body.
Proof.
  intros s0. unfold attemptBody.
  intros s Hs. rewrite bind_run. cbn [getAttempts]. rewrite Hs.
  revert s Hs. change (continues (attempts s0)
    (mark rt ("attempt_" +:+ Js.string_of_Z (attempts s0)) ;;;
     emit (EvAbortTimer (TIMEOUT_SECONDS config * 1000)) ;;;
     fetchUpstream rt request cls targetUrl fetchOptions ;;;
     emit EvClearTimeout ;;;
     current <- getResponse ;;
     match current with
     | None => throw (ErrorObj "TypeError" "response is undefined")
     | Some r =>
         r <- followDockerRedirect rt cls (finalFetchOptions cls fetchOptions) r ;;
         setResponse r ;;;
         if ok r || (status r =? 206) then
           mark rt "success" ;;; ret Break
         else if isDocker cls && (status r =? 401) then
           mark rt "docker_auth_challenge" ;;;
           let authenticateStr := Hdr.get (headers r) "WWW-Authenticate" in
           let scope := getScopeFromUrl (pathname url) effectivePath platform in
           done <-
             match authenticateStr with
             | Some a => if Js.truthy a
                         then negotiateToken rt cls targetUrl fetchOptions a scope
                         else ret false
             | None => ret false
             end ;;
           if done : bool then ret Break
           else
             u <- lift (responseUnauthorized (hostname url)) ;;
             setResponse u ;;;
             ret Break
         else if (400 <=? status r) && (status r <? 500) then
           mark rt "client_error" ;;; ret Break
         else
           setAttempts (attempts s0 + 1) ;;;
           (if attempts s0 + 1 <? MAX_RETRIES config
            then sleep (RETRY_DELAY_MS config * (attempts s0 + 1)) else ret tt) ;;;
           ret Continue
     end)).
  repeat first
    [ progress cbv zeta
    | apply continues_Break | apply continues_throw
    | apply continues_bind;
      [ solve [ repeat first [ apply preserves_attempts_fetchUpstream
                             | apply preserves_attempts_followDockerRedirect
                             | apply preserves_attempts_negotiateToken
                             | keeps_step ] ]
      | intros ? ]
    | match goal with
      | |- continues _ (if ?b then _ else _) => destruct b
      | |- continues _ (match ?x with _ => _ end) => destruct x
      end ].
  (* the one branch that asks for another iteration *)
  intros s Hs. rewrite bind_run. cbn [setAttempts]. rewrite bind_run.
  destruct (attempts s0 + 1 <? MAX_RETRIES config); reflexivity.
Qed.

Lemma attemptCatch_counts (e : Thrown) (s : State) :
  match handler e s with
  | (Ok Continue, s') => attempts s' = attempts s + 1
  | _ => True
  end.
Proof.
  unfold attemptCatch. rewrite bind_run. cbn [getAttempts]. rewrite bind_run.
  cbn [setAttempts]. destruct (Js.isAbortError e).
  - rewrite bind_run. destruct (errorResponse rt _ _ _ _) as [[r|x] s1]; exact I.
  - destruct (MAX_RETRIES config <=? attempts s + 1).
    + rewrite bind_run. destruct (errorResponse rt _ _ _ _) as [[r|x] s1]; exact I.
    + reflexivity.
Qed.

(** An iteration that asks for another one has counted itself; no iteration
    throws. *)
Lemma iteration_counts (s : State) :
  match tryCatch body handler s with
  | (Ok Continue, s') => attempts s' = attempts s + 1
  | (Ok Break, _) => True
  | (Throw _, _) => False
  end.
Proof.
  pose proof (continues_attemptBody s s eq_refl) as Hbody.
  pose proof (returns_iteration s) as [c Hc].
  rewrite tryCatch_run in *.
  destruct (body s) as [[[|]|e] s1]; try exact I; try exact Hbody.
  pose proof (attemptCatch_counts e s1) as Hcatch.
  destruct (handler e s1) as [[[|]|e'] s2]; simpl in *; try exact I; try discriminate.
  congruence.
Qed.

(** *** Termination and the bound on the attempts *)

Lemma retryLoop_unfold (fuel : nat) (s : State) :
  loop (S fuel) s =
  if attempts s <? MAX_RETRIES config then
    match tryCatch body handler s with
    | (Ok Break, s') => (Ok tt, s')
    | (Ok Continue, s') => loop fuel s'
    | (Throw e, s') => (Throw e, s')
    end
  else (Ok tt, s).
Proof.
  cbn [retryLoop]. rewrite bind_run. cbn [getAttempts].
  destruct (attempts s <? MAX_RETRIES config); [|reflexivity].
  rewrite bind_run. destruct (tryCatch body handler s) as [[[|]|e] s']; reflexivity.
Qed.

(** The loop is the [while] loop of the source: once the fuel covers the
    attempts that remain, more fuel changes nothing. *)
Lemma retryLoop_fuel (fuel extra : nat) (s : State) :
  (Z.to_nat (MAX_RETRIES config - attempts s) <= fuel)%nat ->
  loop (fuel + extra) s = loop fuel s.
Proof.
  revert s. induction fuel as [|fuel IH]; intros s Hfuel.
  - destruct extra as [|extra]; [reflexivity|].
    cbn [Nat.add]. rewrite retryLoop_unfold.
    destruct (attempts s <? MAX_RETRIES config) eqn:E; [|reflexivity].
    apply Z.ltb_lt in E. lia.
  - cbn [Nat.add]. rewrite !retryLoop_unfold.
    destruct (attempts s <? MAX_RETRIES config) eqn:E; [|reflexivity].
    pose proof (iteration_counts s) as Hc.
    destruct (tryCatch body handler s) as [[[|]|e] s']; try reflexivity.
    apply IH. apply Z.ltb_lt in E. lia.
Qed.


End LoopFacts.

(** ** Running the handler step by step *)

Lemma count_snoc (p : Event -> bool) (tr : list Event) (e : Event) :
  count p (tr ++ [e]) = (count p tr + (if p e then 1 else 0))%nat.
Proof. rewrite count_app. simpl. lia. Qed.

Section WpRules.

Context {A B : Type}.

Lemma wp_run (m : M A) (s : State) (Q : result A -> State -> Prop) :
  wp m s Q <-> forall r s', m s = (r, s') -> Q r s'.
Proof.
  unfold wp. split.
  - intros H r s' E. now rewrite E in H.
  - intros H. apply H. now destruct (m s).
Qed.

Lemma wp_conseq (m : M A) (s : State) (Q Q' : result A -> State -> Prop) :
  wp m s Q -> (forall r s', Q r s' -> Q' r s') -> wp m s Q'.
Proof. unfold wp. auto. Qed.

Lemma wp_ret (a : A) (s : State) (Q : result A -> State -> Prop) :
  Q (Ok a) s -> wp (ret a) s Q.
Proof. exact id. Qed.

Lemma wp_throw (e : Thrown) (s : State) (Q : result A -> State -> Prop) :
  Q (Throw e) s -> wp (throw e) s Q.
Proof. exact id. Qed.

Lemma wp_lift (r : result A) (s : State) (Q : result A -> State -> Prop) :
  Q r s -> wp (lift r) s Q.
Proof. exact id. Qed.

Lemma wp_bind (m : M A) (k : A -> M B) (s : State) (Q : result B -> State -> Prop) :
  wp m s (fun r s' => match r with
                      | Ok a => wp (k a) s' Q
                      | Throw e => Q (Throw e) s'
                      end) ->
  wp (bind m k) s Q.
Proof.
  unfold wp. rewrite bind_run. destruct (m s) as [[a|e] s1]; simpl; auto.
Qed.

Lemma wp_tryCatch (m : M A) (h : Thrown -> M A) (s : State)
    (Q : result A -> State -> Prop) :
  wp m s (fun r s' => match r with
                      | Ok a => Q (Ok a) s'
                      | Throw e => wp (h e) s' Q
                      end) ->
  wp (tryCatch m h) s Q.
Proof.
  unfold wp. rewrite tryCatch_run. destruct (m s) as [[a|e] s1]; simpl; auto.
Qed.

End WpRules.

Lemma wp_getResponse (s : State) (Q : result (option Response) -> State -> Prop) :
  Q (Ok (response s)) s -> wp getResponse s Q.
Proof. exact id. Qed.

Lemma wp_setResponse (r : Response) (s : State) (Q : result unit -> State -> Prop) :
  Q (Ok tt) (mkState (Some r) (attempts s) (startTime s) (marks s) (clock s) (trace s)) ->
  wp (setResponse r) s Q.
Proof. exact id. Qed.

Lemma wp_getAttempts (s : State) (Q : result Z -> State -> Prop) :
  Q (Ok (attempts s)) s -> wp getAttempts s Q.
Proof. exact id. Qed.

Lemma wp_setAttempts (n : Z) (s : State) (Q : result unit -> State -> Prop) :
  Q (Ok tt) (mkState (response s) n (startTime s) (marks s) (clock s) (trace s)) ->
  wp (setAttempts n) s Q.
Proof. exact id. Qed.

Lemma wp_emit (e : Event) (s : State) (Q : result unit -> State -> Prop) :
  Q (Ok tt) (after s e) -> wp (emit e) s Q.
Proof. exact id. Qed.

Lemma wp_sleep (ms : Z) (s : State) (Q : result unit -> State -> Prop) :
  Q (Ok tt) (after s (EvSleep ms)) -> wp (sleep ms) s Q.
Proof. exact id. Qed.

Lemma wp_mark (rt : Runtime) (name : string) (s : State)
    (Q : result unit -> State -> Prop) :
  Q (Ok tt)
    (mkState (response s) (attempts s) (startTime s)
       (mapSet name (date_now rt (clock s) - startTime s) (marks s)) (S (clock s))
       (trace s ++ [EvMark name])) ->
  wp (mark rt name) s Q.
Proof. exact id. Qed.

Lemma wp_fetch (rt : Runtime) (t : Target) (i : RequestInit) (s : State)
    (Q : result Response -> State -> Prop) :
  Q (fetch_result rt (count isFetch (trace s)) t i) (after s (EvFetch t i)) ->
  wp (fetch rt t i) s Q.
Proof. exact id. Qed.

Lemma wp_cacheMatch (rt : Runtime) (k : CacheKey) (s : State)
    (Q : result (option Response) -> State -> Prop) :
  Q (cache_match_result rt (count isCacheOp (trace s)) k) (after s (EvCacheMatch k)) ->
  wp (cacheMatch rt k) s Q.
Proof. exact id. Qed.

Lemma wp_errorResponse_details (rt : Runtime) (msg : string) (st : Z) (s : State)
    (Q : result Response -> State -> Prop) :
  Q (createErrorResponse (toISOString rt (date_now rt (clock s))) msg st true)
    (mkState (response s) (attempts s) (startTime s) (marks s) (S (clock s)) (trace s)) ->
  wp (errorResponse rt msg st true) s Q.
Proof. exact id. Qed.

Lemma wp_errorResponse_plain (rt : Runtime) (msg : string) (st : Z) (s : State)
    (Q : result Response -> State -> Prop) :
  Q (createErrorResponse EmptyString msg st false) s ->
  wp (errorResponse rt msg st false) s Q.
Proof. exact id. Qed.

(** One step of the run: the rule of the computation at hand, then the
    projections of the new state. *)
Ltac wp_prim :=
  lazymatch goal with
  | |- wp (bind _ _) _ _ => apply wp_bind
  | |- wp (tryCatch _ _) _ _ => apply wp_tryCatch
  | |- wp (ret _) _ _ => apply wp_ret
  | |- wp (throw _) _ _ => apply wp_throw
  | |- wp (lift _) _ _ => apply wp_lift
  | |- wp getResponse _ _ => apply wp_getResponse
  | |- wp (setResponse _) _ _ => apply wp_setResponse
  | |- wp getAttempts _ _ => apply wp_getAttempts
  | |- wp (setAttempts _) _ _ => apply wp_setAttempts
  | |- wp (emit _) _ _ => apply wp_emit
  | |- wp (sleep _) _ _ => apply wp_sleep
  | |- wp (mark _ _) _ _ => apply wp_mark
  | |- wp (fetch _ _ _) _ _ => apply wp_fetch
  | |- wp (cacheMatch _ _) _ _ => apply wp_cacheMatch
  | |- wp (errorResponse _ _ _ true) _ _ => apply wp_errorResponse_details
  | |- wp (errorResponse _ _ _ false) _ _ => apply wp_errorResponse_plain
  end.

Ltac wp_case :=
  lazymatch goal with
  | |- wp (if ?c then _ else _) _ _ => destruct c eqn:?
  | |- wp (match ?x with _ => _ end) _ _ => destruct x eqn:?
  end.

Ltac wp_simpl :=
  cbv beta iota;
  cbn [response attempts startTime marks clock trace after fst snd status headers];
  repeat (first [rewrite (count_snoc isFetch) | rewrite (count_snoc isCacheOp)];
          cbn [isFetch isCacheOp]; rewrite ?Nat.add_0_r).

Ltac wp_step := wp_prim; wp_simpl.

(** The whole run, given what is known of the runtime's answers. *)
Tactic Notation "wp_run_with" tactic3(known) :=
  repeat first
    [ progress known | progress cbn [andb orb negb] | wp_step | wp_case; wp_simpl ].

Ltac wp_done :=
  cbn [response attempts startTime marks clock trace after fst snd];
  repeat split; rewrite <- ?app_assoc; try reflexivity; try lia.

(** ** Single iterations of the retry loop *)

Section Runs.

Context (rt : Runtime).
Context (request : Request) (url : URL) (cls : Classification).
Context (config : ApplicationConfig).
Context (effectivePath platform targetUrl : string) (fetchOptions : RequestInit).

Local Abbreviation body :=
  (attemptBody rt request url cls config effectivePath platform targetUrl fetchOptions).
Local Abbreviation handler := (attemptCatch rt config).
Local Abbreviation final := (finalFetchOptions cls fetchOptions).
Local Abbreviation loop :=
  (retryLoop rt request url cls config effectivePath platform targetUrl fetchOptions).










End Runs.

(** ** After the loop (src/index.js, lines 472-627) *)

Lemma includes_append_l (a b p : string) :
  Js.includes a p = true -> Js.includes (a +:+ b) p = true.
Proof.
  induction a as [|c a IH]; cbn [Js.includes]; intros H.
  - rewrite orb_false_r in H. destruct p; [|discriminate].
    rewrite append_nil_l. destruct b; reflexivity.
  - rewrite append_cons. cbn [Js.includes].
    apply orb_prop in H as [H|H].
    + rewrite <- append_cons, (prefix_trans _ _ _ H (prefix_append _ _)). reflexivity.
    + now rewrite (IH H), orb_true_r.
Qed.

Lemma includes_append_r (a b p : string) :
  Js.includes b p = true -> Js.includes (a +:+ b) p = true.
Proof.
  intros H. induction a as [|c a IH]; [exact H|].
  rewrite append_cons. cbn [Js.includes]. now rewrite IH, orb_true_r.
Qed.

Lemma createErrorResponse_details (timestamp message : string) (st : Z) :
  200 <= st <= 599 -> nullBodyStatus st = false ->
  createErrorResponse timestamp message st true =
  Ok (mkResponse st
        (addSecurityHeaders (Hdr.set "Content-Type" "application/json" ∅))
        (Some (errorJson timestamp message st))).
Proof.
  intros Hst Hnull. unfold createErrorResponse, newResponse.
  replace ((200 <=? st) && (st <=? 599)) with true
    by (symmetry; apply andb_true_intro; split; apply Z.leb_le; lia).
  rewrite Hnull. reflexivity.
Qed.

Lemma timeoutResponse_created :
  createErrorResponse EmptyString "Request timeout" 408 false = Ok timeoutResponse.
Proof. reflexivity. Qed.

Section Finish.

Context (rt : Runtime).
Context (request : Request) (url : URL) (cls : Classification).
Context (config : ApplicationConfig) (cacheAvailable waitUntil : bool).
Context (effectivePath platform targetUrl : string) (fetchOptions : RequestInit).

Local Abbreviation body :=
  (attemptBody rt request url cls config effectivePath platform targetUrl fetchOptions).
Local Abbreviation handler := (attemptCatch rt config).
Local Abbreviation final := (finalFetchOptions cls fetchOptions).
Local Abbreviation loop :=
  (retryLoop rt request url cls config effectivePath platform targetUrl fetchOptions).
Local Abbreviation finish' :=
  (finish rt request url cls config cacheAvailable waitUntil platform targetUrl).

(** A response that is neither a success nor a registry 401 is replaced by
    an error response with the same status, and nothing else happens. *)
Lemma finish_error (s : State) (r : Response) :
  response s = Some r ->
  ok r = false -> status r <> 206 -> status r <> 401 ->
  200 <= status r <= 599 -> nullBodyStatus (status r) = false ->
  wp finish' s (fun res s' =>
    res = Ok tt /\
    trace s' = trace s /\
    response s' =
      Some (mkResponse (status r)
              (addSecurityHeaders (Hdr.set "Content-Type" "application/json" ∅))
              (Some (errorJson (toISOString rt (date_now rt (clock s)))
                       ("Upstream server error (" +:+ Js.string_of_Z (status r) +:+ "): "
                        +:+ text r) (status r))))).
Proof.
  intros Hresp Hok H206 H401 Hst Hnull.
  apply Z.eqb_neq in H206, H401.
  unfold finish.
  wp_run_with (rewrite ?Hresp, ?Hok, ?H206, ?H401, ?andb_false_r,
                 ?createErrorResponse_details by assumption).
  wp_done.
Qed.

(** An attempt that ends in an abort: the loop stops at once with the 408
    response; the attempt is counted, nothing is added to the trace. *)
Lemma iteration_abort (s s1 : State) (e : Thrown) :
  body s = (Throw e, s1) -> Js.isAbortError e = true ->
  tryCatch body handler s =
  (Ok Break,
   mkState (Some timeoutResponse) (attempts s + 1) (startTime s1) (marks s1) (clock s1)
     (trace s1)).
Proof.
  intros Hbody Habort. rewrite tryCatch_run, Hbody.
  pose proof (continues_attemptBody rt request url cls config effectivePath platform
                targetUrl fetchOptions s s eq_refl) as Hn.
  rewrite Hbody in Hn.
  unfold attemptCatch. rewrite bind_run. cbn [getAttempts]. rewrite bind_run.
  cbn [setAttempts]. rewrite Habort, bind_run. unfold errorResponse, lift.
  rewrite timeoutResponse_created, bind_run. cbn [setResponse ret attempts startTime
    marks clock trace]. now rewrite Hn.
Qed.

End Finish.

Section Timeout.

Context (rt : Runtime).
Context (request : Request) (url : URL) (cls : Classification).
Context (config : ApplicationConfig) (cacheAvailable waitUntil : bool).
Context (effectivePath platform targetUrl : string) (fetchOptions : RequestInit).

Local Abbreviation body :=
  (attemptBody rt request url cls config effectivePath platform targetUrl fetchOptions).
Local Abbreviation final := (finalFetchOptions cls fetchOptions).
Local Abbreviation loop :=
  (retryLoop rt request url cls config effectivePath platform targetUrl fetchOptions).
Local Abbreviation finish' :=
  (finish rt request url cls config cacheAvailable waitUntil platform targetUrl).

(** An attempt whose upstream fetch is aborted throws the abort, after the
    mark, the timer and the fetch. *)
Lemma attemptBody_fetch_throws (s : State) (e : Thrown) :
  fetch_result rt (count isFetch (trace s)) (Href targetUrl) final = Throw e ->
  exists s1,
    body s = (Throw e, s1) /\
    trace s1 = trace s ++ attemptEvents config (attempts s) targetUrl final (Throw e).
Proof.
  intros Hfetch.
  assert (H : wp body s (fun res s1 =>
            res = Throw e /\
            trace s1 = trace s ++ attemptEvents config (attempts s) targetUrl final (Throw e))).
  { unfold attemptBody, fetchUpstream, attemptEvents.
    destruct (String.eqb (method request) "HEAD");
      wp_run_with (rewrite ?Hfetch); wp_done. }
  unfold wp in H. destruct (body s) as [res s1]. cbn [fst snd] in H.
  destruct H as [-> Ht]. now exists s1.
Qed.

(** C8. When an attempt is aborted by the timeout timer, whatever number of
    attempts remains, the loop ends at once with the 408 [Request timeout]
    response, and the handler returns a 408 whose body carries that message:
    no retry, no wait and no fetch follows the aborted attempt. *)
Theorem timeout_is_not_retried (fuel : nat) (s s1 : State) (e : Thrown) :
  attempts s < MAX_RETRIES config ->
  body s = (Throw e, s1) ->
  Js.isAbortError e = true ->
  let s2 := mkState (Some timeoutResponse) (attempts s + 1) (startTime s1) (marks s1)
              (clock s1) (trace s1) in
  loop (S fuel) s = (Ok tt, s2) /\
  wp finish' s2 (fun res s3 =>
    res = Ok tt /\
    trace s3 = trace s1 /\
    exists r,
      response s3 = Some r /\
      status r = 408 /\
      text r = errorJson (toISOString rt (date_now rt (clock s1)))
                 "Upstream server error (408): Request timeout" 408 /\
      Js.includes (text r) "Request timeout" = true).
Proof.
  intros Hmore Hbody Habort s2. split.
  - rewrite retryLoop_unfold.
    replace (attempts s <? MAX_RETRIES config) with true by (symmetry; now apply Z.ltb_lt).
    rewrite (iteration_abort rt request url cls config effectivePath platform targetUrl
               fetchOptions s s1 e Hbody Habort).
    reflexivity.
  - eapply wp_conseq.
    + apply (finish_error rt request url cls config cacheAvailable waitUntil platform
               targetUrl s2 timeoutResponse);
        [reflexivity | reflexivity | cbn; lia | cbn; lia | cbn; lia | reflexivity].
    + cbv beta. intros res s3 (-> & Ht & Hr). split; [reflexivity|]. split; [exact Ht|].
      eexists. split; [exact Hr|]. cbn [status text body default].
      split; [reflexivity|]. split; [reflexivity|].
      unfold errorJson.
      do 5 apply includes_append_r. apply includes_append_l. reflexivity.
Qed.

End Timeout.

Lemma timeout_is_not_retried_witness :
  attempts initialState < MAX_RETRIES CONFIG /\
  retryLoop (Example.scripted [Throw Example.aborted] (Ok Example.found))
    Example.getRequest Example.fileUrl Example.plain CONFIG
    (pathname Example.fileUrl) "gh" Example.target Example.options 3 initialState =
  (Ok tt,
   mkState (Some timeoutResponse) 1 (startTime Example.afterAbort)
     (marks Example.afterAbort) (clock Example.afterAbort) (trace Example.afterAbort)).
Proof.
  split; [reflexivity|].
  assert (H : attemptBody (Example.scripted [Throw Example.aborted] (Ok Example.found))
                Example.getRequest Example.fileUrl Example.plain CONFIG
                (pathname Example.fileUrl) "gh" Example.target Example.options
                initialState = (Throw Example.aborted, Example.afterAbort))
    by (vm_compute; reflexivity).
  exact (proj1 (timeout_is_not_retried
                  (Example.scripted [Throw Example.aborted] (Ok Example.found))
                  Example.getRequest Example.fileUrl Example.plain CONFIG true true
                  (pathname Example.fileUrl) "gh" Example.target Example.options
                  2 initialState Example.afterAbort Example.aborted
                  eq_refl H eq_refl)).
Defined.

(** ** The retry policy *)

Section Retry.

Context (rt : Runtime).
Context (request : Request) (url : URL) (cls : Classification).
Context (config : ApplicationConfig) (cacheAvailable waitUntil : bool).
Context (effectivePath platform targetUrl : string) (fetchOptions : RequestInit).

Local Abbreviation body :=
  (attemptBody rt request url cls config effectivePath platform targetUrl fetchOptions).
Local Abbreviation handler := (attemptCatch rt config).
Local Abbreviation final := (finalFetchOptions cls fetchOptions).
Local Abbreviation loop :=
  (retryLoop rt request url cls config effectivePath platform targetUrl fetchOptions).
Local Abbreviation retry' :=
  (retry rt request url cls config effectivePath platform targetUrl fetchOptions).
Local Abbreviation finish' :=
  (finish rt request url cls config cacheAvailable waitUntil platform targetUrl).
Local Abbreviation upstream n := (fetch_result rt n (Href targetUrl) final).








End Retry.

Section Success.

Context (rt : Runtime).
Context (request : Request) (url : URL) (cls : Classification).
Context (config : ApplicationConfig) (cacheAvailable waitUntil : bool).
Context (platform targetUrl : string).

Local Abbreviation finish' :=
  (finish rt request url cls config cacheAvailable waitUntil platform targetUrl).



End Success.

(** ** The retry policy of [handleRequest] *)

Section RetryPolicy.

Context (rt : Runtime).
Context (request : Request) (url : URL) (cls : Classification).
Context (config : ApplicationConfig) (cacheAvailable waitUntil : bool).
Context (effectivePath platform targetUrl : string).

Local Abbreviation fetchOptions := (buildFetchOptions request url cls config targetUrl).
Local Abbreviation upstream n :=
  (fetch_result rt n (Href targetUrl) (finalFetchOptions cls fetchOptions)).
Local Abbreviation loop :=
  (retry rt request url cls config effectivePath platform targetUrl fetchOptions).
Local Abbreviation stage :=
  (fetchStage rt request url cls config cacheAvailable waitUntil effectivePath platform
     targetUrl).


End RetryPolicy.



(** ** The cache store *)

Lemma emits_state {A} (P : Event -> Prop) (m : M A) :
  (forall s, trace (m s).2 = trace s) -> emits P m.
Proof.
  intros H s. exists []. split; [now rewrite H, app_nil_r | constructor].
Qed.

Section CachePolicy.

Context (rt : Runtime).
Context (request : Request) (url : URL) (cls : Classification).
Context (cacheAvailable waitUntil : bool).

Local Abbreviation P := (storePolicy request).

Lemma emits_cacheLookup (targetUrl : string) :
  emits P (cacheLookup rt request cls cacheAvailable targetUrl).
Proof. unfold cacheLookup. repeat emits_step; exact I. Qed.

Lemma emits_cacheStore (targetUrl : string) (r : Response) :
  emits P (cacheStore rt request cls cacheAvailable waitUntil targetUrl r).
Proof.
  unfold cacheStore.
  destruct (cacheable request cls cacheAvailable && String.eqb (method request) "GET" &&
            ok r && (status r =? 200)) eqn:Hguard; [|apply emits_ret].
  apply andb_prop in Hguard as [Hguard H200]. apply andb_prop in Hguard as [Hguard _].
  apply andb_prop in Hguard as [_ Hget].
  apply String.eqb_eq in Hget. apply Z.eqb_eq in H200.
  repeat emits_step; try exact I.
  all: cbn [storePolicy]; repeat split; try assumption.
  all: now destruct (Js.truthy_opt (Hdr.get (req_headers request) "Range")).
Qed.

Lemma emits_processSuccess (config : ApplicationConfig) (platform targetUrl : string)
    (r : Response) :
  emits P (processSuccess rt request url cls config cacheAvailable waitUntil platform
             targetUrl r).
Proof.
  unfold processSuccess. repeat first [apply emits_cacheStore | emits_step].
Qed.

Lemma emits_finish (config : ApplicationConfig) (platform targetUrl : string) :
  emits P (finish rt request url cls config cacheAvailable waitUntil platform targetUrl).
Proof.
  unfold finish. repeat first [apply emits_processSuccess | emits_step].
Qed.

Lemma emits_fetchStage (config : ApplicationConfig)
    (effectivePath platform targetUrl : string) :
  emits P (fetchStage rt request url cls config cacheAvailable waitUntil effectivePath
             platform targetUrl).
Proof.
  unfold fetchStage, retry.
  repeat first [apply emits_finish | apply emits_retryLoop | emits_step]; intros; exact I.
Qed.

Lemma emits_handleDockerAuth (config : ApplicationConfig) :
  emits P (handleDockerAuth rt request url config).
Proof.
  unfold handleDockerAuth.
  repeat first [apply emits_fetchToken | emits_step]; intros; exact I.
Qed.

Lemma emits_routeToPlatform (config : ApplicationConfig) (effectivePath : string) :
  emits P (routeToPlatform rt request url cls cacheAvailable waitUntil config effectivePath).
Proof.
  unfold routeToPlatform.
  repeat first [apply emits_cacheLookup | apply emits_fetchStage | emits_step].
Qed.

Lemma emits_handleRequest (env : option (gmap string string)) (validation : Validation) :
  emits P (handleRequest rt request url cls cacheAvailable waitUntil env validation).
Proof.
  unfold handleRequest, newMonitor, addPerformanceHeaders.
  repeat first [ apply emits_routeToPlatform | apply emits_handleDockerAuth
               | apply emits_state; reflexivity | emits_step ]; exact I.
Qed.

(** C5 (amended). A response is put into the cache only by a [GET] request
    and only with status 200, so never a 206 or an error response; the key
    is a [GET] of the target URL that carries the request headers minus
    [Range] when the request has a [Range] header and no headers at all
    otherwise (not the request headers).  This holds of every store in
    every run of [handleRequest]; and when the cache is in use, the request
    is a [GET] and the response has status 200, the response is stored
    once, under that key. *)
Theorem cache_store_policy :
  (forall env validation s, exists evs,
     trace (handleRequest rt request url cls cacheAvailable waitUntil env validation s).2 =
       trace s ++ evs /\
     Forall (storePolicy request) evs) /\
  (forall targetUrl r s,
     cacheable request cls cacheAvailable = true ->
     method request = "GET" -> status r = 200 ->
     exists rest,
       trace (cacheStore rt request cls cacheAvailable waitUntil targetUrl r s).2 =
         trace s ++
         EvCachePut
           (if Js.truthy_opt (Hdr.get (req_headers request) "Range")
            then mkCacheKey targetUrl "GET" (Hdr.without "range" (req_headers request))
            else mkCacheKey targetUrl "GET" ∅) r waitUntil :: rest /\
       putKeys rest = []).
Proof.
  split.
  - intros env validation s. apply emits_handleRequest.
  - intros targetUrl r s Hcache Hget Hst.
    assert (Hwp : wp (cacheStore rt request cls cacheAvailable waitUntil targetUrl r) s
              (fun _ s' => exists rest,
                 trace s' =
                   trace s ++
                   EvCachePut
                     (if Js.truthy_opt (Hdr.get (req_headers request) "Range")
                      then mkCacheKey targetUrl "GET"
                             (Hdr.without "range" (req_headers request))
                      else mkCacheKey targetUrl "GET" ∅) r waitUntil :: rest /\
                 putKeys rest = [])); [|exact Hwp].
    unfold cacheStore, ok, fullContentKey. rewrite Hcache, Hget, Hst.
    cbn [String.eqb Ascii.eqb Bool.eqb andb Z.leb Z.eqb Z.compare Pos.compare
         Pos.compare_cont Pos.eqb].
    destruct (Js.truthy_opt (Hdr.get (req_headers request) "Range"));
      repeat first [ progress (wp_run_with idtac)
                   | match goal with |- match ?x with _ => _ end => destruct x end ];
      cbn [trace after]; rewrite <- ?app_assoc; cbn [app];
      eexists; (split; [reflexivity|reflexivity]).
Qed.

End CachePolicy.

(** C5, the claim as worded refuted: a [GET] without a [Range] header and
    with an [Accept] header, answered 200, is stored once, under a key that
    has no headers, while the key of the lookup has the request's. *)
Lemma store_key_drops_request_headers :
  map (fun k => (key_url k, key_method k, Hdr.get (key_headers k) "Accept"))
    (putKeys (trace (Example.run (Example.scripted [] (Ok Example.found)) None).2)) =
    [(Example.target, "GET", None)] /\
  Hdr.get (key_headers (asRequestedKey Example.getRequest Example.target)) "Accept" =
    Some "text/plain" /\
  Hdr.get (req_headers Example.getRequest) "Range" = None /\
  Example.outcome (Example.run (Example.scripted [] (Ok Example.found)) None).1 =
    Some (200, "hello").
Proof. vm_compute. repeat split. Qed.

Lemma cache_store_policy_witness :
  exists rest,
    trace (cacheStore (Example.scripted [] (Ok Example.found)) Example.getRequest
             Example.plain true true Example.target Example.found initialState).2 =
      EvCachePut (mkCacheKey Example.target "GET" ∅) Example.found true :: rest /\
    putKeys rest = [].
Proof.
  exact (proj2 (cache_store_policy (Example.scripted [] (Ok Example.found))
                  Example.getRequest Example.fileUrl Example.plain true true)
           Example.target Example.found initialState eq_refl eq_refl eq_refl).
Defined.

(** ** Redirects of registry requests *)

Lemma Hdr_get_delete (name : string) (h : Headers) :
  Hdr.get (Hdr.delete name h) name = None.
Proof. unfold Hdr.get, Hdr.delete. apply lookup_delete_eq. Qed.

Section DockerRedirect.

Context (rt : Runtime).
Context (request : Request) (url : URL) (cls : Classification).
Context (config : ApplicationConfig).
Context (effectivePath platform targetUrl : string) (fetchOptions : RequestInit).
Hypothesis docker : isDocker cls = true.

Local Abbreviation P := noAuthorizationOnFollow.

Ltac event_ok :=
  lazymatch goal with
  | |- noAuthorizationOnFollow _ =>
      cbn [noAuthorizationOnFollow init_redirect init_headers finalFetchOptions];
      rewrite ?docker;
      first [ exact I
            | intros H; discriminate H
            | intros _; apply Hdr_get_delete
            | intros _; reflexivity ]
  end.

Lemma follow_fetchToken (w : WwwAuthenticate) (scope : string) :
  emits P (fetchToken rt w scope EmptyString).
Proof. unfold fetchToken. repeat emits_step; event_ok. Qed.

Lemma follow_followDockerRedirect (options : RequestInit) (r : Response) :
  emits P (followDockerRedirect rt cls options r).
Proof. unfold followDockerRedirect. repeat emits_step; event_ok. Qed.

Lemma follow_fetchUpstream :
  emits P (fetchUpstream rt request cls targetUrl fetchOptions).
Proof. unfold fetchUpstream. repeat emits_step; event_ok. Qed.

Lemma follow_negotiateToken (a scope : string) :
  emits P (negotiateToken rt cls targetUrl fetchOptions a scope).
Proof.
  unfold negotiateToken.
  repeat first [ apply follow_fetchToken | apply follow_followDockerRedirect | emits_step ];
    event_ok.
Qed.

Lemma follow_attemptBody :
  emits P (attemptBody rt request url cls config effectivePath platform targetUrl
             fetchOptions).
Proof.
  unfold attemptBody.
  repeat first [ apply follow_fetchUpstream | apply follow_followDockerRedirect
               | apply follow_negotiateToken | emits_step ]; event_ok.
Qed.

Lemma follow_attemptCatch (e : Thrown) : emits P (attemptCatch rt config e).
Proof. unfold attemptCatch. repeat emits_step; event_ok. Qed.

Lemma follow_retryLoop (fuel : nat) :
  emits P (retryLoop rt request url cls config effectivePath platform targetUrl
             fetchOptions fuel).
Proof.
  induction fuel as [|fuel IH]; simpl; [apply emits_ret|].
  repeat first [ apply follow_attemptBody | apply follow_attemptCatch | exact IH
               | emits_step ].
Qed.

(** The run of the token negotiation in which the retried request is
    answered by a redirect. *)
Lemma negotiateToken_redirect (a scope : string) (w : WwwAuthenticate) (s : State)
    (tokenResponse rr : Response) (tok loc : string) :
  parseAuthenticate a = Ok w ->
  url_ok rt (realm w) = true ->
  fetch_result rt (count isFetch (trace s)) (tokenTarget w scope) tokenOptions =
    Ok tokenResponse ->
  ok tokenResponse = true ->
  json_token rt (text tokenResponse) = Ok (Some tok) ->
  Js.truthy tok = true ->
  fetch_result rt (count isFetch (trace s) + 1) (Href targetUrl)
    (bearerOptions cls fetchOptions tok) = Ok rr ->
  isRedirectStatus (status rr) = true ->
  Hdr.get (headers rr) "Location" = Some loc ->
  Js.truthy loc = true ->
  wp (negotiateToken rt cls targetUrl fetchOptions a scope) s (fun res s' =>
    exists final,
      fetches (trace s') =
        fetches (trace s) ++
        [(tokenTarget w scope, tokenOptions);
         (Href targetUrl, bearerOptions cls fetchOptions tok);
         (Href loc, final)] /\
      init_headers final =
        Hdr.delete "Authorization" (init_headers (bearerOptions cls fetchOptions tok)) /\
      init_redirect final = follow).
Proof.
  intros Hparse Hurl Htoken Hok Hjson Htok Hretry Hred Hloc Htruthy.
  unfold negotiateToken, fetchToken, followDockerRedirect.
  unfold tokenTarget, tokenOptions, bearerOptions in *.
  cbn [finalFetchOptions init_method init_headers init_redirect init_body init_cf] in *.
  rewrite docker in *. change (Js.truthy EmptyString) with false. cbv iota.
  repeat first
    [ progress (wp_run_with (rewrite ?Hparse, ?Hurl, ?Htoken, ?Hok, ?Hjson, ?Htok, ?Hretry,
                               ?Hred, ?Hloc, ?Htruthy))
    | match goal with |- match ?x with _ => _ end => destruct x end ].
  all: cbn [trace after]; rewrite <- ?app_assoc; cbn [app];
    unfold fetches; rewrite flat_map_app; cbn [flat_map app];
    eexists; (split; [reflexivity | split; reflexivity]).
Qed.

(** C6. For a registry request, the fetch that follows the redirect of the
    retried request has the headers of the retry less [Authorization].
    First, in every run of the retry loop, each fetch that follows
    redirects carries no [Authorization] header.  Second, when the
    challenge of a 401 is answered by a token and the request retried with
    that token gets a 301, 302 or 307 with a [Location], the fetches of the
    negotiation are the token request, the retry with the bearer token, and
    the fetch of the [Location] target, whose headers are those of the
    retry with [Authorization] deleted and which follows further
    redirects. *)
Theorem docker_redirect_drops_authorization :
  (forall s, exists evs,
     trace (retry rt request url cls config effectivePath platform targetUrl fetchOptions
              s).2 = trace s ++ evs /\
     Forall noAuthorizationOnFollow evs) /\
  (forall a scope w s tokenResponse rr tok loc,
     parseAuthenticate a = Ok w ->
     url_ok rt (realm w) = true ->
     fetch_result rt (count isFetch (trace s)) (tokenTarget w scope) tokenOptions =
       Ok tokenResponse ->
     ok tokenResponse = true ->
     json_token rt (text tokenResponse) = Ok (Some tok) ->
     Js.truthy tok = true ->
     fetch_result rt (count isFetch (trace s) + 1) (Href targetUrl)
       (bearerOptions cls fetchOptions tok) = Ok rr ->
     isRedirectStatus (status rr) = true ->
     Hdr.get (headers rr) "Location" = Some loc ->
     Js.truthy loc = true ->
     wp (negotiateToken rt cls targetUrl fetchOptions a scope) s (fun res s' =>
       exists final,
         fetches (trace s') =
           fetches (trace s) ++
           [(tokenTarget w scope, tokenOptions);
            (Href targetUrl, bearerOptions cls fetchOptions tok);
            (Href loc, final)] /\
         Hdr.get (init_headers (bearerOptions cls fetchOptions tok)) "Authorization" =
           Some ("Bearer " +:+ tok) /\
         init_headers final =
           Hdr.delete "Authorization" (init_headers (bearerOptions cls fetchOptions tok)) /\
         Hdr.get (init_headers final) "Authorization" = None /\
         init_redirect final = follow)).
Proof.
  split.
  - unfold retry.
    apply emits_bind; [apply emits_setAttempts | intros _; apply follow_retryLoop].
  - intros a scope w s tokenResponse rr tok loc Hparse Hurl Htoken Hok Hjson Htok Hretry
      Hred Hloc Htruthy.
    eapply wp_conseq.
    + exact (negotiateToken_redirect a scope w s tokenResponse rr tok loc Hparse Hurl
               Htoken Hok Hjson Htok Hretry Hred Hloc Htruthy).
    + cbv beta. intros res s' (final & Hfetches & Hheaders & Hfollow).
      exists final. split; [exact Hfetches|]. split.
      * unfold bearerOptions, Hdr.get, Hdr.set. cbn [init_headers].
        apply lookup_insert_eq.
      * split; [exact Hheaders|]. split; [|exact Hfollow].
        rewrite Hheaders. apply Hdr_get_delete.
Qed.

End DockerRedirect.

Lemma docker_redirect_drops_authorization_witness :
  wp (negotiateToken Example.registryRuntime Example.registry Example.manifestUrl
        Example.registryOptions Example.challenge Example.pullScope)
     initialState
     (fun res s' =>
        exists final,
          fetches (trace s') =
            [(tokenTarget Example.challengeParsed Example.pullScope, tokenOptions);
             (Href Example.manifestUrl,
              bearerOptions Example.registry Example.registryOptions "t0ken");
             (Href Example.blobUrl, final)] /\
          Hdr.get (init_headers final) "Authorization" = None /\
          Hdr.get (init_headers final) "Accept" = Some "application/json").
Proof.
  eapply wp_conseq.
  - apply (proj2 (docker_redirect_drops_authorization Example.registryRuntime
                    Example.getRequest Example.fileUrl Example.registry CONFIG
                    "/cr/ghcr/user/image/manifests/latest" "cr-ghcr" Example.manifestUrl
                    Example.registryOptions eq_refl)
             Example.challenge Example.pullScope Example.challengeParsed initialState
             Example.tokenResponse Example.redirected "t0ken" Example.blobUrl);
      vm_compute; reflexivity.
  - cbv beta. intros res s' (final & Hfetches & _ & Hheaders & Hnone & _).
    exists final. split; [exact Hfetches|]. split; [exact Hnone|].
    rewrite Hheaders. reflexivity.
Defined.
